(** * DuckLake Python client: a shallow embedding of [ducklake_client.py]

    The client reads a table of a DuckLake catalog at a snapshot: it asks the
    catalog (a relational database) which data files and delete files are
    valid, decodes each Parquet file, removes the deleted row positions and
    concatenates the per-file tables.

    The catalog relations are lists of records and each SQL query is the list
    function it denotes.  Python exceptions are an error result; the catalog
    queries and the Parquet reads a call makes are recorded, in order, in a
    log, so that statements about which queries a call issues can be made. *)

From Stdlib Require Import ZArith List String Ascii Bool Lia.
From Stdlib Require Import Sorted Permutation.
Import ListNotations.

Local Open Scope string_scope.
Local Open Scope list_scope.
Local Open Scope Z_scope.

(** ** Exceptions, results and the effect log *)

(** The exceptions the client raises or lets through.  [ArrowInvalid] and
    [FileNotFoundError] come from the Parquet reader, [KeyError] from
    indexing a table by a column name, [ArrowNotImplementedError] from
    filtering a table. *)
Inductive Exc : Type :=
| ValueError (msg : string)
| UnboundLocalError (name : string)
| KeyError (key : string)
| FileNotFoundError (path : string)
| ArrowInvalid (msg : string)
| ArrowNotImplementedError.

Inductive result (A : Type) : Type :=
| Ok (a : A)
| Raise (e : Exc).
Arguments Ok {A} a.
Arguments Raise {A} e.

(** What a call does to the outside: one event per catalog query, carrying
    the parameters bound into the query, and one per file handed to the
    Parquet reader, carrying the path and the projection. *)
Inductive Event : Type :=
| QCurrentSnapshot
| QSchemas (snapshot_id : Z)
| QTables (schema_id snapshot_id : Z)
| QColumns (table_id snapshot_id : Z)
| QDataFiles (table_id snapshot_id : Z)
| ReadParquet (path : string) (columns : option (list string)).

(** The snapshot a catalog query is evaluated at. *)
Definition event_snapshot (ev : Event) : option Z :=
  match ev with
  | QSchemas s | QTables _ s | QColumns _ s | QDataFiles _ s => Some s
  | QCurrentSnapshot | ReadParquet _ _ => None
  end.

Definition is_file_read (ev : Event) : bool :=
  match ev with ReadParquet _ _ => true | _ => false end.

(** A computation yields the events it performed and a value or the
    exception that stopped it. *)
Definition M (A : Type) : Type := list Event * result A.

Definition ret {A} (a : A) : M A := ([], Ok a).
Definition raise {A} (e : Exc) : M A := ([], Raise e).
Definition emit (ev : Event) : M unit := ([ev], Ok tt).

Definition bind {A B} (m : M A) (k : A -> M B) : M B :=
  match m with
  | (l1, Ok a) => let (l2, r) := k a in (l1 ++ l2, r)
  | (l1, Raise e) => (l1, Raise e)
  end.

Definition events {A} (m : M A) : list Event := fst m.
Definition outcome {A} (m : M A) : result A := snd m.

Declare Scope py_scope.
Delimit Scope py_scope with py.
Notation "x <- m ;; k" := (bind m (fun x => k))
  (at level 100, m at next level, right associativity) : py_scope.
Notation "m ;; k" := (bind m (fun _ => k))
  (at level 100, right associativity) : py_scope.
Local Open Scope py_scope.

(** ** pathlib on POSIX *)

Module PosixPath.

(** A pure POSIX path: its root (none, [/], or exactly two leading
    slashes, which pathlib keeps apart) and its components. *)
Inductive Root : Type := Relative | Slash | DoubleSlash.

Record Path : Type := { root : Root; parts : list string }.

Definition Root_eqb (a b : Root) : bool :=
  match a, b with
  | Relative, Relative | Slash, Slash | DoubleSlash, DoubleSlash => true
  | _, _ => false
  end.

(** [s.split('/')]. *)
Fixpoint split_slash (s : string) : list string :=
  match s with
  | EmptyString => [EmptyString]
  | String c rest =>
      if (c =? "/")%char then EmptyString :: split_slash rest
      else match split_slash rest with
           | [] => [String c EmptyString]
           | p :: ps => String c p :: ps
           end
  end.

(** [posixpath.splitroot]: one slash, or three and more, is the root [/];
    exactly two is the root [//]. *)
Definition parse_root (s : string) : Root :=
  match s with
  | String "/" (String "/" (String "/" _)) => Slash
  | String "/" (String "/" _) => DoubleSlash
  | String "/" _ => Slash
  | _ => Relative
  end.

Definition keep_part (p : string) : bool :=
  negb (p =? "")%string && negb (p =? ".")%string.

(** [Path(s)]: empty and [.] components are dropped. *)
Definition of_string (s : string) : Path :=
  {| root := parse_root s; parts := filter keep_part (split_slash s) |}.

Definition is_absolute (p : Path) : bool := negb (Root_eqb (root p) Relative).

(** [p / q]: an absolute right operand replaces the left one. *)
Definition join (p q : Path) : Path :=
  if is_absolute q then q
  else {| root := root p; parts := parts p ++ parts q |}.

Definition div (p : Path) (s : string) : Path := join p (of_string s).

(** [p.absolute()] in a process whose working directory is [cwd]. *)
Definition absolute (cwd : string) (p : Path) : Path :=
  if is_absolute p then p else join (of_string cwd) p.

Definition root_str (r : Root) : string :=
  match r with Relative => "" | Slash => "/" | DoubleSlash => "//" end.

(** [str(p)]. *)
Definition to_string (p : Path) : string :=
  match root p, parts p with
  | Relative, [] => "."
  | r, ps => (root_str r ++ String.concat "/" ps)%string
  end.

End PosixPath.
Import PosixPath.

Notation "p // s" := (PosixPath.div p s) (at level 40, left associativity).

(** ** Arrow tables and the Parquet reader *)

(** A cell of a table.  Floating-point and nested cells are not modelled. *)
Inductive Value : Type :=
| VNull
| VBool (b : bool)
| VInt (z : Z)
| VStr (s : string).

Record Field : Type := { f_name : string; f_type : string }.

(** A [pa.Table]: a schema and the rows in order.  A table without columns
    still has a number of rows. *)
Record Table : Type := { schema : list Field; rows : list (list Value) }.

Definition Field_eqb (f g : Field) : bool :=
  (f_name f =? f_name g)%string && (f_type f =? f_type g)%string.

Fixpoint schema_eqb (s1 s2 : list Field) : bool :=
  match s1, s2 with
  | [], [] => true
  | f :: s1', g :: s2' => Field_eqb f g && schema_eqb s1' s2'
  | _, _ => false
  end.

(** [len(table)]. *)
Definition num_rows (t : Table) : nat := List.length (rows t).

(** [schema.get_all_field_indices(name)], counting from [i]. *)
Fixpoint get_all_field_indices_from (i : nat) (name : string) (sch : list Field)
  : list nat :=
  match sch with
  | [] => []
  | f :: sch' =>
      if (f_name f =? name)%string
      then i :: get_all_field_indices_from (S i) name sch'
      else get_all_field_indices_from (S i) name sch'
  end.

Definition get_all_field_indices (name : string) (sch : list Field) : list nat :=
  get_all_field_indices_from 0 name sch.

(** A name denotes a column when exactly one field carries it. *)
Definition field_index (name : string) (sch : list Field) : option nat :=
  match get_all_field_indices name sch with
  | [i] => Some i
  | _ => None
  end.

Fixpoint field_indices (names : list string) (sch : list Field)
  : option (list nat) :=
  match names with
  | [] => Some []
  | n :: names' =>
      match field_index n sch, field_indices names' sch with
      | Some i, Some is_ => Some (i :: is_)
      | _, _ => None
      end
  end.

Definition no_field : Field := {| f_name := ""; f_type := "" |}.

Definition cell (r : list Value) (i : nat) : Value := nth i r VNull.

(** The table made of the columns at [idxs], in that order. *)
Definition take_columns (idxs : list nat) (t : Table) : Table :=
  {| schema := map (fun i => nth i (schema t) no_field) idxs;
     rows := map (fun r => map (cell r) idxs) (rows t) |}.

(** Column projection: the named columns in the order asked for; a name
    that does not denote a column is refused. *)
Definition project (names : list string) (t : Table) : result Table :=
  match field_indices names (schema t) with
  | Some idxs => Ok (take_columns idxs t)
  | None => Raise (ArrowInvalid "No match for FieldRef.Name")
  end.

(** [table[name].to_pylist()]. *)
Definition column_to_pylist (name : string) (t : Table) : result (list Value) :=
  match field_index name (schema t) with
  | Some i => Ok (map (fun r => cell r i) (rows t))
  | None => Raise (KeyError name)
  end.

(** [table.filter(pa.array(mask))]: the rows whose mask entry is [True]. *)
Fixpoint filter_rows {A} (l : list A) (mask : list bool) : list A :=
  match l, mask with
  | x :: l', b :: mask' =>
      if b then x :: filter_rows l' mask' else filter_rows l' mask'
  | _, _ => []
  end.

(** [pa.array] infers the type of the array from the elements, so the
    array of an empty list has the type null and not the type boolean;
    [Table.filter] refuses a mask that is not boolean. *)
Definition table_filter (t : Table) (mask : list bool) : result Table :=
  match mask with
  | [] => Raise ArrowNotImplementedError
  | _ :: _ => Ok {| schema := schema t; rows := filter_rows (rows t) mask |}
  end.

(** [pa.concat_tables]: every table must have the schema of the first.
    The number of rows of the result is that of its columns, so tables
    without columns give a table without rows. *)
Definition concat_tables (ts : list Table) : result Table :=
  match ts with
  | [] => Raise (ArrowInvalid "Must pass at least one table")
  | t :: rest =>
      if forallb (fun u => schema_eqb (schema u) (schema t)) rest
      then Ok {| schema := schema t;
                 rows := match schema t with
                         | [] => []
                         | _ :: _ => List.concat (map rows ts)
                         end |}
      else Raise (ArrowInvalid "Schema at index was different")
  end.

(** [pa.Table.from_pydict({f.name: [] for f in schema}, schema=schema)]. *)
Definition empty_table (sch : list Field) : Table :=
  {| schema := sch; rows := [] |}.

(** Python's [i in l] for an integer [i]: [==] on each element in turn;
    [True] and [False] compare equal to 1 and 0. *)
Definition py_eq_int (i : Z) (v : Value) : bool :=
  match v with
  | VInt z => i =? z
  | VBool b => i =? (if b then 1 else 0)
  | VNull | VStr _ => false
  end.

Definition py_in (i : Z) (l : list Value) : bool := existsb (py_eq_int i) l.

(** [list(range(n))]. *)
Definition range (n : nat) : list Z := map Z.of_nat (seq 0 n).

(** ** The catalog *)

(** A row is visible at snapshot [s] when
    [s >= begin_snapshot AND (s < end_snapshot OR end_snapshot IS NULL)]. *)
Definition visible (s : Z) (begin_snapshot : Z) (end_snapshot : option Z) : bool :=
  (s >=? begin_snapshot) &&
  match end_snapshot with
  | Some e => s <? e
  | None => true
  end.

Module DuckLakeSchema.
Record row : Type :=
  { schema_id : Z; schema_name : string;
    begin_snapshot : Z; end_snapshot : option Z }.
End DuckLakeSchema.

Module DuckLakeTable.
Record row : Type :=
  { table_id : Z; table_name : string; schema_id : Z;
    begin_snapshot : Z; end_snapshot : option Z }.
End DuckLakeTable.

Module DuckLakeColumn.
Record row : Type :=
  { column_id : Z; column_name : string; column_type : string;
    column_order : Z; table_id : Z; parent_column : option Z;
    begin_snapshot : Z; end_snapshot : option Z }.
End DuckLakeColumn.

Module DuckLakeDataFile.
Record row : Type :=
  { data_file_id : Z; table_id : Z; path : string; path_is_relative : bool;
    file_order : Z; begin_snapshot : Z; end_snapshot : option Z }.
End DuckLakeDataFile.

(** The delete-file relation has its own [path_is_relative] column; no
    query of the client selects it. *)
Module DuckLakeDeleteFile.
Record row : Type :=
  { data_file_id : Z; path : string; path_is_relative : bool;
    begin_snapshot : Z; end_snapshot : option Z }.
End DuckLakeDeleteFile.

Record Catalog : Type :=
  { ducklake_snapshot : list Z;
    ducklake_schema : list DuckLakeSchema.row;
    ducklake_table : list DuckLakeTable.row;
    ducklake_column : list DuckLakeColumn.row;
    ducklake_data_file : list DuckLakeDataFile.row;
    ducklake_delete_file : list DuckLakeDeleteFile.row }.

(** [ORDER BY key]: an insertion sort that keeps rows of equal key in
    the order of the input (SQL leaves their order open).  A query without
    [ORDER BY] yields its rows in the order of the relation. *)
Fixpoint insert_by {A} (key : A -> Z) (x : A) (l : list A) : list A :=
  match l with
  | [] => [x]
  | y :: l' => if key x <=? key y then x :: l else y :: insert_by key x l'
  end.

Fixpoint order_by {A} (key : A -> Z) (l : list A) : list A :=
  match l with
  | [] => []
  | x :: l' => insert_by key x (order_by key l')
  end.

(** ** Queries *)

Module Query.

(** [SELECT max(snapshot_id) FROM ducklake_snapshot]; NULL on no rows. *)
Definition max_snapshot (c : Catalog) : option Z :=
  match ducklake_snapshot c with
  | [] => None
  | s :: rest => Some (fold_left Z.max rest s)
  end.

(** The query of [get_current_snapshot_id], then [fetchone()]. *)
Definition current_snapshot (c : Catalog) : option Z :=
  match max_snapshot c with
  | None => None
  | Some m => hd_error (filter (fun s => s =? m) (ducklake_snapshot c))
  end.

Definition schemas (c : Catalog) (snapshot_id : Z) : list DuckLakeSchema.row :=
  filter (fun r => visible snapshot_id (DuckLakeSchema.begin_snapshot r)
                                       (DuckLakeSchema.end_snapshot r))
         (ducklake_schema c).

Definition tables (c : Catalog) (schema_id snapshot_id : Z)
  : list DuckLakeTable.row :=
  filter (fun r => (DuckLakeTable.schema_id r =? schema_id) &&
                   visible snapshot_id (DuckLakeTable.begin_snapshot r)
                                       (DuckLakeTable.end_snapshot r))
         (ducklake_table c).

Definition is_null {A} (o : option A) : bool :=
  match o with None => true | Some _ => false end.

Definition columns (c : Catalog) (table_id snapshot_id : Z)
  : list DuckLakeColumn.row :=
  order_by DuckLakeColumn.column_order
    (filter (fun r => (DuckLakeColumn.table_id r =? table_id) &&
                      is_null (DuckLakeColumn.parent_column r) &&
                      visible snapshot_id (DuckLakeColumn.begin_snapshot r)
                                          (DuckLakeColumn.end_snapshot r))
            (ducklake_column c)).

(** The subquery [del]: the delete files visible at the snapshot. *)
Definition del (c : Catalog) (snapshot_id : Z) : list DuckLakeDeleteFile.row :=
  filter (fun x => visible snapshot_id (DuckLakeDeleteFile.begin_snapshot x)
                                       (DuckLakeDeleteFile.end_snapshot x))
         (ducklake_delete_file c).

(** [data LEFT JOIN del ON data.data_file_id = del.data_file_id]: one row
    per matching delete file, and one row with NULLs when none matches. *)
Definition left_join (data : list DuckLakeDataFile.row)
    (del : list DuckLakeDeleteFile.row)
  : list (DuckLakeDataFile.row * option DuckLakeDeleteFile.row) :=
  flat_map
    (fun d =>
       match filter (fun x => DuckLakeDataFile.data_file_id d =?
                              DuckLakeDeleteFile.data_file_id x) del with
       | [] => [(d, None)]
       | matches => map (fun x => (d, Some x)) matches
       end)
    data.

(** The query of [get_data_files], each result row with the catalog rows
    it was made from. *)
Definition data_files (c : Catalog) (table_id snapshot_id : Z)
  : list (DuckLakeDataFile.row * option DuckLakeDeleteFile.row) :=
  order_by (fun j => DuckLakeDataFile.file_order (fst j))
    (filter (fun j => (DuckLakeDataFile.table_id (fst j) =? table_id) &&
                      visible snapshot_id
                        (DuckLakeDataFile.begin_snapshot (fst j))
                        (DuckLakeDataFile.end_snapshot (fst j)))
            (left_join (ducklake_data_file c) (del c snapshot_id))).

End Query.

(** ** The client *)

Record TableColumn : Type :=
  { column_id : Z; column_name : string; column_type : string;
    column_order : Z }.

Record DataFile : Type :=
  { data_file_path : string; delete_file_path : option string;
    path_is_relative : bool }.

(** The object: the catalog its engine is connected to and the base path
    of the data files. *)
Record DucklakeClient : Type :=
  { engine : Catalog; data_path : option Path }.

(** What the process sees besides the catalog: the Parquet files by path
    (a path without a decodable file has none) and the working directory. *)
Record Env : Type :=
  { files : string -> option Table; cwd : string }.

Definition str_truthy (s : string) : bool := negb (s =? "")%string.

(** [DucklakeClient(connection_string, data_path)]. *)
Definition init (catalog : Catalog) (data_path : option string) : DucklakeClient :=
  {| engine := catalog;
     data_path := match data_path with
                  | Some s => if str_truthy s then Some (of_string s) else None
                  | None => None
                  end |}.

Definition lift {A} (r : result A) : M A := ([], r).

(** [pq.read_table(path, columns=columns)]. *)
Definition pq_read_table (env : Env) (path : string)
    (columns : option (list string)) : M Table :=
  emit (ReadParquet path columns) ;;
  match files env path with
  | None => raise (FileNotFoundError path)
  | Some t =>
      match columns with
      | None => ret t
      | Some names => lift (project names t)
      end
  end.

Section Client.

Variable env : Env.
Variable self : DucklakeClient.

Definition get_current_snapshot_id : M Z :=
  emit QCurrentSnapshot ;;
  match Query.current_snapshot (engine self) with
  | None => raise (ValueError "No snapshots found in the catalog")
  | Some s => ret s
  end.

Definition list_schemas (snapshot_id : option Z) : M (list (Z * string)) :=
  snapshot_id <- match snapshot_id with
                 | None => get_current_snapshot_id
                 | Some s => ret s
                 end ;;
  emit (QSchemas snapshot_id) ;;
  ret (map (fun r => (DuckLakeSchema.schema_id r, DuckLakeSchema.schema_name r))
           (Query.schemas (engine self) snapshot_id)).

Definition list_tables (schema_id : Z) (snapshot_id : option Z)
  : M (list (Z * string)) :=
  snapshot_id <- match snapshot_id with
                 | None => get_current_snapshot_id
                 | Some s => ret s
                 end ;;
  emit (QTables schema_id snapshot_id) ;;
  ret (map (fun r => (DuckLakeTable.table_id r, DuckLakeTable.table_name r))
           (Query.tables (engine self) schema_id snapshot_id)).

Definition get_table_columns (table_id : Z) (snapshot_id : option Z)
  : M (list TableColumn) :=
  snapshot_id <- match snapshot_id with
                 | None => get_current_snapshot_id
                 | Some s => ret s
                 end ;;
  emit (QColumns table_id snapshot_id) ;;
  ret (map (fun r => {| column_id := DuckLakeColumn.column_id r;
                        column_name := DuckLakeColumn.column_name r;
                        column_type := DuckLakeColumn.column_type r;
                        column_order := DuckLakeColumn.column_order r |})
           (Query.columns (engine self) table_id snapshot_id)).

(** A result row of the data-file query as a [DataFile]. *)
Definition to_DataFile
    (j : DuckLakeDataFile.row * option DuckLakeDeleteFile.row) : DataFile :=
  {| data_file_path := DuckLakeDataFile.path (fst j);
     path_is_relative := DuckLakeDataFile.path_is_relative (fst j);
     delete_file_path := option_map DuckLakeDeleteFile.path (snd j) |}.

Definition get_data_files (table_id : Z) (snapshot_id : option Z)
  : M (list DataFile) :=
  snapshot_id <- match snapshot_id with
                 | None => get_current_snapshot_id
                 | Some s => ret s
                 end ;;
  emit (QDataFiles table_id snapshot_id) ;;
  ret (map to_DataFile (Query.data_files (engine self) table_id snapshot_id)).

Definition _resolve_path (path : string) (is_relative : bool)
    (table_name schema_name : string) : result Path :=
  if is_relative then
    match data_path self with
    | None => Raise (ValueError "Relative path provided but no data_path configured")
    | Some dp => Ok (absolute (cwd env) (dp // schema_name // table_name // path))
    end
  else Ok (absolute (cwd env) (of_string path)).

Definition _read_delete_row_ids (delete_file_path : Path) : M (list Value) :=
  table <- pq_read_table env (to_string delete_file_path) None ;;
  lift (column_to_pylist "pos" table).

(** [if df.delete_file_path:] holds for a path that is neither [None]
    nor empty. *)
Definition delete_path_truthy (p : option string) : option string :=
  match p with
  | Some s => if str_truthy s then Some s else None
  | None => None
  end.

(** The rows that stay: [keep_mask] and the filter on it, which raises
    on the empty mask of a table without rows. *)
Definition apply_deletes (delete_row_ids : list Value) (table : Table)
  : result Table :=
  let row_indices := range (num_rows table) in
  let keep_mask := map (fun i => negb (py_in i delete_row_ids)) row_indices in
  table_filter table keep_mask.

(** One turn of the loop over [data_files] in [_read_table]; the two
    writes to standard output are left out. *)
Definition read_data_file (table_name schema_name : string)
    (columns : option (list string)) (df : DataFile) : M Table :=
  data_path <- lift (_resolve_path (data_file_path df) (path_is_relative df)
                                   table_name schema_name) ;;
  table <- pq_read_table env (to_string data_path) columns ;;
  match delete_path_truthy (delete_file_path df) with
  | Some dfp =>
      delete_path <- lift (_resolve_path dfp (path_is_relative df)
                                         table_name schema_name) ;;
      delete_row_ids <- _read_delete_row_ids delete_path ;;
      lift (apply_deletes delete_row_ids table)
  | None => ret table
  end.

(** The loop: [arrow_tables] once every file is read. *)
Fixpoint read_data_files (table_name schema_name : string)
    (columns : option (list string)) (data_files : list DataFile)
  : M (list Table) :=
  match data_files with
  | [] => ret []
  | df :: rest =>
      table <- read_data_file table_name schema_name columns df ;;
      arrow_tables <- read_data_files table_name schema_name columns rest ;;
      ret (table :: arrow_tables)
  end.

(** [if columns:] holds for a list that is neither [None] nor empty. *)
Definition columns_truthy (columns : option (list string)) : bool :=
  match columns with
  | Some (_ :: _) => true
  | _ => false
  end.

Definition _read_table (table_id : Z) (table_name schema_name : string)
    (snapshot_id : option Z) (columns : option (list string)) : M Table :=
  snapshot_id <- match snapshot_id with
                 | None => get_current_snapshot_id
                 | Some s => ret s
                 end ;;
  data_files <- get_data_files table_id (Some snapshot_id) ;;
  match data_files with
  | [] =>
      table_columns <-
        (if columns_truthy columns
         then raise (UnboundLocalError "table_columns")
         else get_table_columns table_id (Some snapshot_id)) ;;
      ret (empty_table
             (map (fun col => {| f_name := column_name col; f_type := "string" |})
                  table_columns))
  | _ :: _ =>
      arrow_tables <- read_data_files table_name schema_name columns data_files ;;
      match arrow_tables with
      | [t] => ret t
      | _ => lift (concat_tables arrow_tables)
      end
  end.

(** The first pair of the list with the given name, as the loops with
    [break] of [read_table] find it. *)
Fixpoint find_id (name : string) (l : list (Z * string)) : option Z :=
  match l with
  | [] => None
  | (i, n) :: l' => if (n =? name)%string then Some i else find_id name l'
  end.

Definition read_table (schema_name table_name : string)
    (snapshot_id : option Z) (columns : option (list string)) : M Table :=
  snapshot_id <- match snapshot_id with
                 | None => get_current_snapshot_id
                 | Some s => ret s
                 end ;;
  schemas <- list_schemas (Some snapshot_id) ;;
  match find_id schema_name schemas with
  | None => raise (ValueError ("Schema '" ++ schema_name ++ "' not found")%string)
  | Some schema_id =>
      tables <- list_tables schema_id (Some snapshot_id) ;;
      match find_id table_name tables with
      | None => raise (ValueError ("Table '" ++ table_name ++ "' not found in schema '"
                                     ++ schema_name ++ "'")%string)
      | Some table_id =>
          _read_table table_id table_name schema_name (Some snapshot_id) columns
      end
  end.

End Client.

(** ** Closing the client *)

Module Lifecycle.

(** What [close], [__enter__] and [__exit__] work on: the flag [_closed]
    and the number of times [engine.dispose()] was called. *)
Record State : Type := { _closed : bool; disposals : nat }.

(** The client as [__init__] leaves it. *)
Definition fresh : State := {| _closed := false; disposals := 0 |}.

(** What leaves a [with] block: the [RuntimeError] of [__enter__], or an
    exception of the body or of [engine.dispose()]. *)
Inductive Raised : Type :=
| RuntimeError (msg : string)
| Propagated (e : Exc).

(** [close()]; [dispose] is what [engine.dispose()] does when called:
    [None] when it returns, the exception when it raises.  The [finally]
    clause sets the flag either way. *)
Definition close (dispose : option Exc) (s : State) : State * option Exc :=
  if _closed s then (s, None)
  else ({| _closed := true; disposals := S (disposals s) |}, dispose).

Definition __enter__ (s : State) : Raised + State :=
  if _closed s then inl (RuntimeError "DucklakeClient is closed") else inr s.

(** [__exit__] returns [None]: an exception of the block is not swallowed. *)
Definition __exit__ (dispose : option Exc) (s : State) : State * option Exc :=
  close dispose s.

(** [with client as c: body]: the body runs on the entered client and may
    change it; an exception of [__exit__] replaces the one of the body. *)
Definition with_client {A} (dispose : option Exc)
    (body : State -> State * result A) (s : State) : State * (Raised + A) :=
  match __enter__ s with
  | inl e => (s, inl e)
  | inr c =>
      let (s1, r) := body c in
      let (s2, d) := __exit__ dispose s1 in
      (s2, match d, r with
           | Some e, _ => inl (Propagated e)
           | None, Raise e => inl (Propagated e)
           | None, Ok a => inr a
           end)
  end.

End Lifecycle.

(** ** A small lake

    One schema with a table of two data files, the first with a delete file
    from snapshot 3 on, and a table without data files. *)

Module Lake.

Definition fields : list Field :=
  [ {| f_name := "id"; f_type := "int32" |};
    {| f_name := "name"; f_type := "string" |} ].

Definition f1 : Table :=
  {| schema := fields;
     rows := [ [VInt 1; VStr "Alice"]; [VInt 2; VStr "Bob"];
               [VInt 3; VStr "Charlie"] ] |}.

Definition f2 : Table :=
  {| schema := fields; rows := [ [VInt 4; VStr "Dave"] ] |}.

(** Position 1 is Bob's; position 7 is past the end of [f1]. *)
Definition d1 : Table :=
  {| schema := [ {| f_name := "file_path"; f_type := "string" |};
                 {| f_name := "pos"; f_type := "int64" |} ];
     rows := [ [VStr "f1.parquet"; VInt 1]; [VStr "f1.parquet"; VInt 7] ] |}.

Definition f1_row : DuckLakeDataFile.row :=
  {| DuckLakeDataFile.data_file_id := 10;
     DuckLakeDataFile.table_id := 2;
     DuckLakeDataFile.path := "f1.parquet";
     DuckLakeDataFile.path_is_relative := true;
     DuckLakeDataFile.file_order := 1;
     DuckLakeDataFile.begin_snapshot := 2;
     DuckLakeDataFile.end_snapshot := None |}.

Definition f2_row : DuckLakeDataFile.row :=
  {| DuckLakeDataFile.data_file_id := 11;
     DuckLakeDataFile.table_id := 2;
     DuckLakeDataFile.path := "f2.parquet";
     DuckLakeDataFile.path_is_relative := true;
     DuckLakeDataFile.file_order := 2;
     DuckLakeDataFile.begin_snapshot := 2;
     DuckLakeDataFile.end_snapshot := None |}.

(** The delete file of [f1]; its own flag says the path is absolute. *)
Definition d1_row : DuckLakeDeleteFile.row :=
  {| DuckLakeDeleteFile.data_file_id := 10;
     DuckLakeDeleteFile.path := "d1.parquet";
     DuckLakeDeleteFile.path_is_relative := false;
     DuckLakeDeleteFile.begin_snapshot := 3;
     DuckLakeDeleteFile.end_snapshot := None |}.

Definition catalog : Catalog :=
  {| ducklake_snapshot := [0; 1; 2; 3];
     ducklake_schema :=
       [ {| DuckLakeSchema.schema_id := 1;
            DuckLakeSchema.schema_name := "test_schema";
            DuckLakeSchema.begin_snapshot := 1;
            DuckLakeSchema.end_snapshot := None |} ];
     ducklake_table :=
       [ {| DuckLakeTable.table_id := 2;
            DuckLakeTable.table_name := "deletes_table";
            DuckLakeTable.schema_id := 1;
            DuckLakeTable.begin_snapshot := 1;
            DuckLakeTable.end_snapshot := None |};
         {| DuckLakeTable.table_id := 3;
            DuckLakeTable.table_name := "empty_table";
            DuckLakeTable.schema_id := 1;
            DuckLakeTable.begin_snapshot := 1;
            DuckLakeTable.end_snapshot := None |} ];
     ducklake_column :=
       [ {| DuckLakeColumn.column_id := 1;
            DuckLakeColumn.column_name := "id";
            DuckLakeColumn.column_type := "int32";
            DuckLakeColumn.column_order := 1;
            DuckLakeColumn.table_id := 3;
            DuckLakeColumn.parent_column := None;
            DuckLakeColumn.begin_snapshot := 1;
            DuckLakeColumn.end_snapshot := None |};
         {| DuckLakeColumn.column_id := 2;
            DuckLakeColumn.column_name := "name";
            DuckLakeColumn.column_type := "varchar";
            DuckLakeColumn.column_order := 2;
            DuckLakeColumn.table_id := 3;
            DuckLakeColumn.parent_column := None;
            DuckLakeColumn.begin_snapshot := 1;
            DuckLakeColumn.end_snapshot := None |} ];
     ducklake_data_file := [f2_row; f1_row];
     ducklake_delete_file := [d1_row] |}.

Definition disk (p : string) : option Table :=
  if (p =? "/data/test_schema/deletes_table/f1.parquet")%string then Some f1
  else if (p =? "/data/test_schema/deletes_table/f2.parquet")%string then Some f2
  else if (p =? "/data/test_schema/deletes_table/d1.parquet")%string then Some d1
  else None.

Definition env : Env := {| files := disk; cwd := "/home/user" |}.

Definition client : DucklakeClient := init catalog (Some "/data").

(** The same catalog opened with a relative data root, and without one. *)
Definition client_relative_root : DucklakeClient := init catalog (Some "data").
Definition client_no_root : DucklakeClient := init catalog None.

(** The same files seen from another working directory. *)
Definition env_elsewhere : Env := {| files := disk; cwd := "/srv" |}.

(** The first data file of [deletes_table] with its delete file, as
    [get_data_files] returns it at snapshot 3, and where the two files
    are on disk. *)
Definition df1 : DataFile :=
  {| data_file_path := "f1.parquet"; delete_file_path := Some "d1.parquet";
     path_is_relative := true |}.

Definition f1_path : Path :=
  {| root := Slash;
     parts := ["data"; "test_schema"; "deletes_table"; "f1.parquet"] |}.

Definition d1_path : Path :=
  {| root := Slash;
     parts := ["data"; "test_schema"; "deletes_table"; "d1.parquet"] |}.

(** A delete file whose position column has another name. *)
Definition d1_row_id : Table :=
  {| schema := [ {| f_name := "row_id"; f_type := "int64" |} ];
     rows := [ [VInt 1] ] |}.

Definition env_row_id : Env :=
  {| files := fun p =>
                if (p =? "/data/test_schema/deletes_table/d1.parquet")%string
                then Some d1_row_id else disk p;
     cwd := "/home/user" |}.

End Lake.

(** ** More catalogs and files *)

Module Cases.

(** A catalog without any snapshot. *)
Definition no_snapshot : Catalog :=
  {| ducklake_snapshot := [];
     ducklake_schema := [];
     ducklake_table := [];
     ducklake_column := [];
     ducklake_data_file := [];
     ducklake_delete_file := [] |}.

Definition client_no_snapshot : DucklakeClient := init no_snapshot (Some "/data").

(** The files of the small lake with the second data file missing. *)
Definition env_f2_missing : Env :=
  {| files := fun p =>
                if (p =? "/data/test_schema/deletes_table/f2.parquet")%string
                then None else Lake.disk p;
     cwd := "/home/user" |}.

(** The small lake with [f1] as the only data file of [deletes_table]. *)
Definition one_file : Catalog :=
  {| ducklake_snapshot := ducklake_snapshot Lake.catalog;
     ducklake_schema := ducklake_schema Lake.catalog;
     ducklake_table := ducklake_table Lake.catalog;
     ducklake_column := ducklake_column Lake.catalog;
     ducklake_data_file := [Lake.f1_row];
     ducklake_delete_file := ducklake_delete_file Lake.catalog |}.

Definition client_one_file : DucklakeClient := init one_file (Some "/data").

(** The files of the small lake with a first data file that holds no
    row: the columns of [f1] and nothing under them. *)
Definition f1_empty : Table := {| schema := Lake.fields; rows := [] |}.

Definition env_f1_empty : Env :=
  {| files := fun p =>
                if (p =? "/data/test_schema/deletes_table/f1.parquet")%string
                then Some f1_empty else Lake.disk p;
     cwd := "/home/user" |}.

End Cases.

(** ** Vocabulary of the properties *)

(** The snapshot a call works at: the one given, or the current one. *)
Definition resolves_to (self : DucklakeClient) (snapshot_id : option Z) (S : Z)
  : Prop :=
  match snapshot_id with
  | Some s => s = S
  | None => Query.current_snapshot (engine self) = Some S
  end.

(** A query at snapshot [S], or a file read: not a new resolution of the
    current snapshot and not a query at another snapshot. *)
Definition at_snapshot (S : Z) (ev : Event) : Prop :=
  ev <> QCurrentSnapshot /\
  forall s, event_snapshot ev = Some s -> s = S.

(** A log without a Parquet read. *)
Definition no_file_read (l : list Event) : Prop :=
  Forall (fun ev => is_file_read ev = false) l.

(** A schema row visible at [S]. *)
Definition schema_visible (c : Catalog) (S : Z) (r : DuckLakeSchema.row) : Prop :=
  In r (ducklake_schema c) /\
  visible S (DuckLakeSchema.begin_snapshot r) (DuckLakeSchema.end_snapshot r) = true.

(** A table row of schema [schema_id] visible at [S]. *)
Definition table_visible (c : Catalog) (S schema_id : Z) (r : DuckLakeTable.row)
  : Prop :=
  In r (ducklake_table c) /\
  DuckLakeTable.schema_id r = schema_id /\
  visible S (DuckLakeTable.begin_snapshot r) (DuckLakeTable.end_snapshot r) = true.

(** A data file row of table [table_id] visible at [S]. *)
Definition data_file_visible (c : Catalog) (S table_id : Z)
    (d : DuckLakeDataFile.row) : Prop :=
  In d (ducklake_data_file c) /\
  DuckLakeDataFile.table_id d = table_id /\
  visible S (DuckLakeDataFile.begin_snapshot d)
            (DuckLakeDataFile.end_snapshot d) = true.

(** The delete file row [x] covers snapshot [S]. *)
Definition delete_file_covers (S : Z) (x : DuckLakeDeleteFile.row) : Prop :=
  DuckLakeDeleteFile.begin_snapshot x <= S /\
  match DuckLakeDeleteFile.end_snapshot x with
  | Some e => S < e
  | None => True
  end.

(** The table id the two loops of [read_table] find at snapshot [S]. *)
Definition table_id_of (self : DucklakeClient) (schema_name table_name : string)
    (S : Z) : option Z :=
  match find_id schema_name
          (map (fun r => (DuckLakeSchema.schema_id r, DuckLakeSchema.schema_name r))
               (Query.schemas (engine self) S)) with
  | None => None
  | Some schema_id =>
      find_id table_name
        (map (fun r => (DuckLakeTable.table_id r, DuckLakeTable.table_name r))
             (Query.tables (engine self) schema_id S))
  end.

(** The order of [ORDER BY key]. *)
Definition key_le {A} (key : A -> Z) (x y : A) : Prop := key x <= key y.


(** The data files of table [table_id] visible at [S], in file order. *)
Definition visible_data_files (c : Catalog) (table_id S : Z)
  : list DuckLakeDataFile.row :=
  order_by DuckLakeDataFile.file_order
    (filter (fun d => (DuckLakeDataFile.table_id d =? table_id) &&
                      visible S (DuckLakeDataFile.begin_snapshot d)
                                (DuckLakeDataFile.end_snapshot d))
            (ducklake_data_file c)).


(** The position an element of a position list stands for, if any. *)
Definition position_of (v : Value) : option Z :=
  match v with
  | VInt z => Some z
  | VBool b => Some (if b then 1 else 0)
  | VNull | VStr _ => None
  end.

(** The element stands for a position of a table of [n] rows. *)
Definition in_range (n : nat) (v : Value) : bool :=
  match position_of v with
  | Some z => (0 <=? z) && (z <? Z.of_nat n)
  | None => false
  end.

(** The table [t] without the rows whose position is in [D]. *)
Definition without_deleted (D : list Value) (t : Table) : Table :=
  {| schema := schema t;
     rows := filter_rows (rows t)
               (map (fun i => negb (py_in i D)) (range (num_rows t))) |}.

(** The delete file row [x] with its own relativity flag set to [f x]. *)
Definition with_delete_flag (f : DuckLakeDeleteFile.row -> bool)
    (x : DuckLakeDeleteFile.row) : DuckLakeDeleteFile.row :=
  {| DuckLakeDeleteFile.data_file_id := DuckLakeDeleteFile.data_file_id x;
     DuckLakeDeleteFile.path := DuckLakeDeleteFile.path x;
     DuckLakeDeleteFile.path_is_relative := f x;
     DuckLakeDeleteFile.begin_snapshot := DuckLakeDeleteFile.begin_snapshot x;
     DuckLakeDeleteFile.end_snapshot := DuckLakeDeleteFile.end_snapshot x |}.

(** The catalog with the relativity flags of its delete files rewritten. *)
Definition with_delete_flags (f : DuckLakeDeleteFile.row -> bool) (c : Catalog)
  : Catalog :=
  {| ducklake_snapshot := ducklake_snapshot c;
     ducklake_schema := ducklake_schema c;
     ducklake_table := ducklake_table c;
     ducklake_column := ducklake_column c;
     ducklake_data_file := ducklake_data_file c;
     ducklake_delete_file := map (with_delete_flag f) (ducklake_delete_file c) |}.

(** The client connected to the catalog so rewritten. *)
Definition reflag (f : DuckLakeDeleteFile.row -> bool) (self : DucklakeClient)
  : DucklakeClient :=
  {| engine := with_delete_flags f (engine self); data_path := data_path self |}.

(** A row of the data-file query over the catalog so rewritten. *)
Definition reflag_row (f : DuckLakeDeleteFile.row -> bool)
    (j : DuckLakeDataFile.row * option DuckLakeDeleteFile.row)
  : DuckLakeDataFile.row * option DuckLakeDeleteFile.row :=
  (fst j, option_map (with_delete_flag f) (snd j)).

(** ** Later writes *)

Module Later.

(** A write after snapshot [S] changes the catalog in two ways: it ends a
    row that is still valid, at its own snapshot, and it adds rows that
    begin at its own snapshot.  It rewrites nothing else. *)

Definition retire_schema (e : option Z) (r : DuckLakeSchema.row)
  : DuckLakeSchema.row :=
  match DuckLakeSchema.end_snapshot r, e with
  | None, Some e =>
      {| DuckLakeSchema.schema_id := DuckLakeSchema.schema_id r;
         DuckLakeSchema.schema_name := DuckLakeSchema.schema_name r;
         DuckLakeSchema.begin_snapshot := DuckLakeSchema.begin_snapshot r;
         DuckLakeSchema.end_snapshot := Some e |}
  | _, _ => r
  end.

Definition retire_table (e : option Z) (r : DuckLakeTable.row)
  : DuckLakeTable.row :=
  match DuckLakeTable.end_snapshot r, e with
  | None, Some e =>
      {| DuckLakeTable.table_id := DuckLakeTable.table_id r;
         DuckLakeTable.table_name := DuckLakeTable.table_name r;
         DuckLakeTable.schema_id := DuckLakeTable.schema_id r;
         DuckLakeTable.begin_snapshot := DuckLakeTable.begin_snapshot r;
         DuckLakeTable.end_snapshot := Some e |}
  | _, _ => r
  end.

Definition retire_column (e : option Z) (r : DuckLakeColumn.row)
  : DuckLakeColumn.row :=
  match DuckLakeColumn.end_snapshot r, e with
  | None, Some e =>
      {| DuckLakeColumn.column_id := DuckLakeColumn.column_id r;
         DuckLakeColumn.column_name := DuckLakeColumn.column_name r;
         DuckLakeColumn.column_type := DuckLakeColumn.column_type r;
         DuckLakeColumn.column_order := DuckLakeColumn.column_order r;
         DuckLakeColumn.table_id := DuckLakeColumn.table_id r;
         DuckLakeColumn.parent_column := DuckLakeColumn.parent_column r;
         DuckLakeColumn.begin_snapshot := DuckLakeColumn.begin_snapshot r;
         DuckLakeColumn.end_snapshot := Some e |}
  | _, _ => r
  end.

Definition retire_data_file (e : option Z) (r : DuckLakeDataFile.row)
  : DuckLakeDataFile.row :=
  match DuckLakeDataFile.end_snapshot r, e with
  | None, Some e =>
      {| DuckLakeDataFile.data_file_id := DuckLakeDataFile.data_file_id r;
         DuckLakeDataFile.table_id := DuckLakeDataFile.table_id r;
         DuckLakeDataFile.path := DuckLakeDataFile.path r;
         DuckLakeDataFile.path_is_relative := DuckLakeDataFile.path_is_relative r;
         DuckLakeDataFile.file_order := DuckLakeDataFile.file_order r;
         DuckLakeDataFile.begin_snapshot := DuckLakeDataFile.begin_snapshot r;
         DuckLakeDataFile.end_snapshot := Some e |}
  | _, _ => r
  end.

Definition retire_delete_file (e : option Z) (r : DuckLakeDeleteFile.row)
  : DuckLakeDeleteFile.row :=
  match DuckLakeDeleteFile.end_snapshot r, e with
  | None, Some e =>
      {| DuckLakeDeleteFile.data_file_id := DuckLakeDeleteFile.data_file_id r;
         DuckLakeDeleteFile.path := DuckLakeDeleteFile.path r;
         DuckLakeDeleteFile.path_is_relative := DuckLakeDeleteFile.path_is_relative r;
         DuckLakeDeleteFile.begin_snapshot := DuckLakeDeleteFile.begin_snapshot r;
         DuckLakeDeleteFile.end_snapshot := Some e |}
  | _, _ => r
  end.

(** The writes made since a snapshot: for each relation, at which
    snapshot (if at all) each row was ended, and the rows added. *)
Record Writes : Type :=
  { new_snapshots : list Z;
    ended_schema : DuckLakeSchema.row -> option Z;
    new_schemas : list DuckLakeSchema.row;
    ended_table : DuckLakeTable.row -> option Z;
    new_tables : list DuckLakeTable.row;
    ended_column : DuckLakeColumn.row -> option Z;
    new_columns : list DuckLakeColumn.row;
    ended_data_file : DuckLakeDataFile.row -> option Z;
    new_data_files : list DuckLakeDataFile.row;
    ended_delete_file : DuckLakeDeleteFile.row -> option Z;
    new_delete_files : list DuckLakeDeleteFile.row }.

(** The catalog after the writes. *)
Definition apply (w : Writes) (c : Catalog) : Catalog :=
  {| ducklake_snapshot := ducklake_snapshot c ++ new_snapshots w;
     ducklake_schema :=
       map (fun r => retire_schema (ended_schema w r) r) (ducklake_schema c)
       ++ new_schemas w;
     ducklake_table :=
       map (fun r => retire_table (ended_table w r) r) (ducklake_table c)
       ++ new_tables w;
     ducklake_column :=
       map (fun r => retire_column (ended_column w r) r) (ducklake_column c)
       ++ new_columns w;
     ducklake_data_file :=
       map (fun r => retire_data_file (ended_data_file w r) r)
           (ducklake_data_file c)
       ++ new_data_files w;
     ducklake_delete_file :=
       map (fun r => retire_delete_file (ended_delete_file w r) r)
           (ducklake_delete_file c)
       ++ new_delete_files w |}.

(** Every write of [w] was made at a snapshot after [S]. *)
Definition after (S : Z) (w : Writes) : Prop :=
  (forall r e, ended_schema w r = Some e -> S < e) /\
  (forall r e, ended_table w r = Some e -> S < e) /\
  (forall r e, ended_column w r = Some e -> S < e) /\
  (forall r e, ended_data_file w r = Some e -> S < e) /\
  (forall r e, ended_delete_file w r = Some e -> S < e) /\
  Forall (fun r => S < DuckLakeSchema.begin_snapshot r) (new_schemas w) /\
  Forall (fun r => S < DuckLakeTable.begin_snapshot r) (new_tables w) /\
  Forall (fun r => S < DuckLakeColumn.begin_snapshot r) (new_columns w) /\
  Forall (fun r => S < DuckLakeDataFile.begin_snapshot r) (new_data_files w) /\
  Forall (fun r => S < DuckLakeDeleteFile.begin_snapshot r) (new_delete_files w).

(** The client connected to the catalog after the writes. *)
Definition client (w : Writes) (self : DucklakeClient) : DucklakeClient :=
  {| engine := apply w (engine self); data_path := data_path self |}.

End Later.

(** The schema id the first loop of [read_table] finds at snapshot [S]. *)
Definition schema_id_of (self : DucklakeClient) (schema_name : string) (S : Z)
  : option Z :=
  find_id schema_name
    (map (fun r => (DuckLakeSchema.schema_id r, DuckLakeSchema.schema_name r))
         (Query.schemas (engine self) S)).

(** The Parquet reads of the turns of the loop over [dfs], in order. *)
Definition file_reads (env : Env) (self : DucklakeClient)
    (table_name schema_name : string) (columns : option (list string))
    (dfs : list DataFile) : list Event :=
  flat_map (fun df => events (read_data_file env self table_name schema_name
                                             columns df)) dfs.

(** What a call logs before it works at its snapshot: the query for the
    current snapshot when no snapshot was given. *)
Definition resolution_events (snapshot_id : option Z) : list Event :=
  match snapshot_id with
  | None => [QCurrentSnapshot]
  | Some _ => []
  end.

(** The exception of [get_current_snapshot_id]. *)
Definition no_snapshots_error : Exc :=
  ValueError "No snapshots found in the catalog".

(** The catalog with another snapshot relation. *)
Definition with_snapshots (l : list Z) (c : Catalog) : Catalog :=
  {| ducklake_snapshot := l;
     ducklake_schema := ducklake_schema c;
     ducklake_table := ducklake_table c;
     ducklake_column := ducklake_column c;
     ducklake_data_file := ducklake_data_file c;
     ducklake_delete_file := ducklake_delete_file c |}.

(** ** Writes on the small lake *)

Module LaterCases.

(** A third data file of [deletes_table], written at snapshot 4. *)
Definition f3_row : DuckLakeDataFile.row :=
  {| DuckLakeDataFile.data_file_id := 12;
     DuckLakeDataFile.table_id := 2;
     DuckLakeDataFile.path := "f3.parquet";
     DuckLakeDataFile.path_is_relative := true;
     DuckLakeDataFile.file_order := 0;
     DuckLakeDataFile.begin_snapshot := 4;
     DuckLakeDataFile.end_snapshot := None |}.

(** A second delete file of [f1], written at snapshot 5. *)
Definition d2_row : DuckLakeDeleteFile.row :=
  {| DuckLakeDeleteFile.data_file_id := 10;
     DuckLakeDeleteFile.path := "d2.parquet";
     DuckLakeDeleteFile.path_is_relative := true;
     DuckLakeDeleteFile.begin_snapshot := 5;
     DuckLakeDeleteFile.end_snapshot := None |}.

(** Snapshot 4 adds a data file; snapshot 5 replaces the delete file of
    [f1], drops the table [empty_table] and ends every column. *)
Definition writes : Later.Writes :=
  {| Later.new_snapshots := [4; 5];
     Later.ended_schema := fun _ => None;
     Later.new_schemas := [];
     Later.ended_table :=
       fun r => if DuckLakeTable.table_id r =? 3 then Some 5 else None;
     Later.new_tables := [];
     Later.ended_column := fun _ => Some 5;
     Later.new_columns := [];
     Later.ended_data_file := fun _ => None;
     Later.new_data_files := [f3_row];
     Later.ended_delete_file := fun _ => Some 5;
     Later.new_delete_files := [d2_row] |}.

End LaterCases.

(** * Properties *)

(** ** Laws of the log *)

Lemma events_bind {A B} (m : M A) (k : A -> M B) :
  events (bind m k) =
  events m ++ match outcome m with
              | Ok a => events (k a)
              | Raise _ => []
              end.
Proof.
  destruct m as [l [a | e]]; simpl.
  - destruct (k a); reflexivity.
  - symmetry; apply app_nil_r.
Qed.

Lemma outcome_bind {A B} (m : M A) (k : A -> M B) :
  outcome (bind m k) =
  match outcome m with
  | Ok a => outcome (k a)
  | Raise e => Raise e
  end.
Proof.
  destruct m as [l [a | e]]; simpl; [destruct (k a) |]; reflexivity.
Qed.

Lemma Forall_events_bind {A B} (P : Event -> Prop) (m : M A) (k : A -> M B) :
  Forall P (events m) ->
  (forall a, outcome m = Ok a -> Forall P (events (k a))) ->
  Forall P (events (bind m k)).
Proof.
  intros Hm Hk. rewrite events_bind. apply Forall_app. split; [exact Hm |].
  destruct (outcome m) as [a | e] eqn:E; [apply Hk; reflexivity | constructor].
Qed.

(** Splits a goal [Forall P (events (x <- m ;; k))] along the binds. *)
Ltac split_events :=
  repeat
    match goal with
      | |- Forall _ [] => apply Forall_nil
      | |- Forall _ (events (bind _ _)) =>
          apply Forall_events_bind;
          [| let a := fresh "a" in
             let H := fresh "H" in
             intros a H;
             try match type of H with
                 | outcome (ret _) = Ok _ => injection H as <-
                 end ]
      | |- Forall _ (events (ret _)) => apply Forall_nil
      | |- Forall _ (events (raise _)) => apply Forall_nil
      | |- Forall _ (events (lift _)) => apply Forall_nil
      | |- Forall _ (events (emit _)) => apply Forall_cons; [| apply Forall_nil]
    end.

(** ** The snapshot of a read *)

Section SnapshotOfARead.

Variable env : Env.
Variable self : DucklakeClient.

Lemma at_snapshot_query S ev :
  event_snapshot ev = Some S -> at_snapshot S ev.
Proof.
  intros H. split.
  - intros ->. discriminate.
  - intros s Hs. congruence.
Qed.

Lemma at_snapshot_read S p c : at_snapshot S (ReadParquet p c).
Proof. split; [discriminate | intros s Hs; discriminate]. Qed.

Lemma pq_read_table_events S p c :
  Forall (at_snapshot S) (events (pq_read_table env p c)).
Proof.
  unfold pq_read_table. split_events.
  - apply at_snapshot_read.
  - destruct (files env p) as [t |]; [destruct c |]; split_events.
Qed.

Lemma read_data_file_events S tn sn cols df :
  Forall (at_snapshot S) (events (read_data_file env self tn sn cols df)).
Proof.
  unfold read_data_file. split_events.
  - apply pq_read_table_events.
  - destruct (delete_path_truthy (delete_file_path df)); split_events.
    unfold _read_delete_row_ids. split_events. apply pq_read_table_events.
Qed.

Lemma read_data_files_events S tn sn cols dfs :
  Forall (at_snapshot S) (events (read_data_files env self tn sn cols dfs)).
Proof.
  induction dfs as [| df dfs IH]; simpl; split_events.
  - apply read_data_file_events.
  - exact IH.
Qed.

Lemma _read_table_events S tid tn sn cols :
  Forall (at_snapshot S) (events (_read_table env self tid tn sn (Some S) cols)).
Proof.
  unfold _read_table, get_data_files, get_table_columns. split_events.
  - now apply at_snapshot_query.
  - match goal with |- context [match ?l with [] => _ | _ :: _ => _ end] =>
      destruct l as [| df dfs] eqn:E end.
    + split_events. destruct (columns_truthy cols); split_events.
      now apply at_snapshot_query.
    + split_events.
      * apply read_data_files_events.
      * match goal with a : list Table |- _ =>
          destruct a as [| ? [| ? ?]]; split_events end.
Qed.

(** Every event of a [read_table] at an explicit snapshot is at it. *)
Lemma read_table_events_at S sn tn cols :
  Forall (at_snapshot S) (events (read_table env self sn tn (Some S) cols)).
Proof.
  unfold read_table, list_schemas, list_tables. split_events.
  - now apply at_snapshot_query.
  - destruct (find_id sn _) as [sid |]; split_events.
    + now apply at_snapshot_query.
    + destruct (find_id tn _) as [tid |]; split_events.
      apply _read_table_events.
Qed.

End SnapshotOfARead.

Lemma bind_ret_l {A B} (a : A) (k : A -> M B) : bind (ret a) k = k a.
Proof. unfold bind, ret. destruct (k a); reflexivity. Qed.

Lemma bind_assoc {A B C} (m : M A) (k : A -> M B) (h : B -> M C) :
  bind (bind m k) h = bind m (fun a => bind (k a) h).
Proof.
  destruct m as [l [a | e]]; simpl; [| reflexivity].
  destruct (k a) as [l2 [b | e]]; simpl; [| reflexivity].
  destruct (h b) as [l3 r]. now rewrite app_assoc.
Qed.

Lemma bind_ext {A B} (m : M A) (k k' : A -> M B) :
  (forall a, k a = k' a) -> bind m k = bind m k'.
Proof.
  intros H. destruct m as [l [a | e]]; simpl; [rewrite H |]; reflexivity.
Qed.

(** A read without a snapshot is the resolution of the current snapshot
    followed by the read at that snapshot. *)
Lemma read_table_default env self sn tn cols :
  read_table env self sn tn None cols =
  (snapshot_id <- get_current_snapshot_id self ;;
   read_table env self sn tn (Some snapshot_id) cols).
Proof.
  unfold read_table. apply bind_ext. intros s.
  now rewrite bind_ret_l.
Qed.

Lemma get_current_snapshot_id_run self :
  get_current_snapshot_id self =
  ([QCurrentSnapshot],
   match Query.current_snapshot (engine self) with
   | Some s => Ok s
   | None => Raise (ValueError "No snapshots found in the catalog")
   end).
Proof.
  unfold get_current_snapshot_id.
  destruct (Query.current_snapshot (engine self)); reflexivity.
Qed.

(** C1: a [read_table] call without a snapshot resolves the current
    snapshot once, as its first action; every catalog query it makes after
    that (schemas, tables, data files, and the columns of a table without
    data files) is evaluated at the snapshot so resolved.  The rest of the
    call is the read at that snapshot, which starts with the schema query. *)
Theorem read_table_resolves_snapshot_once env self sn tn cols :
  exists rest,
    events (read_table env self sn tn None cols) = QCurrentSnapshot :: rest /\
    ~ In QCurrentSnapshot rest /\
    (forall ev s, In ev rest -> event_snapshot ev = Some s ->
                  Query.current_snapshot (engine self) = Some s) /\
    (forall S, Query.current_snapshot (engine self) = Some S ->
               rest = events (read_table env self sn tn (Some S) cols) /\
               outcome (read_table env self sn tn None cols) =
               outcome (read_table env self sn tn (Some S) cols) /\
               exists rest', rest = QSchemas S :: rest').
Proof.
  rewrite read_table_default, events_bind, outcome_bind.
  rewrite get_current_snapshot_id_run. cbn [events outcome fst snd app].
  destruct (Query.current_snapshot (engine self)) as [S |] eqn:Hcur.
  - exists (events (read_table env self sn tn (Some S) cols)).
    pose proof (read_table_events_at env self S sn tn cols) as Hall.
    rewrite Forall_forall in Hall.
    split; [reflexivity |]. split; [| split].
    + intros Hin. apply Hall in Hin. destruct Hin as [Hne _]. now apply Hne.
    + intros ev s Hin Hs. apply Hall in Hin. destruct Hin as [_ Hat].
      f_equal. symmetry. now apply Hat.
    + intros S' HS'. injection HS' as <-. split; [reflexivity |].
      split; [reflexivity |].
      unfold read_table. rewrite bind_ret_l. unfold list_schemas.
      rewrite bind_ret_l, !bind_assoc, events_bind. cbn. eauto.
  - exists []. split; [reflexivity |]. split; [intros [] |].
    split; [intros ev s [] | discriminate].
Qed.

(** ** Name resolution *)

Lemma read_table_resolved env self sn tn snapshot_id cols S :
  resolves_to self snapshot_id S ->
  outcome (read_table env self sn tn snapshot_id cols) =
  outcome (read_table env self sn tn (Some S) cols) /\
  events (read_table env self sn tn snapshot_id cols) =
  match snapshot_id with
  | None => [QCurrentSnapshot]
  | Some _ => []
  end ++ events (read_table env self sn tn (Some S) cols).
Proof.
  destruct snapshot_id as [s |]; simpl.
  - intros ->. split; reflexivity.
  - intros Hcur.
    rewrite read_table_default, events_bind, outcome_bind.
    rewrite get_current_snapshot_id_run, Hcur. split; reflexivity.
Qed.

Lemma find_id_None name (l : list (Z * string)) :
  (forall p, In p l -> snd p <> name) -> find_id name l = None.
Proof.
  induction l as [| [i n] l IH]; simpl; intros H; [reflexivity |].
  destruct (String.eqb_spec n name) as [-> | _].
  - exfalso. now apply (H (i, name)); [left |].
  - apply IH. intros p Hp. apply H. now right.
Qed.

Lemma find_id_In name (l : list (Z * string)) i :
  find_id name l = Some i -> In (i, name) l.
Proof.
  induction l as [| [j n] l IH]; simpl; [discriminate |].
  destruct (String.eqb_spec n name) as [-> | _].
  - intros [= ->]. now left.
  - intros H. right. now apply IH.
Qed.

Lemma find_id_found name (l : list (Z * string)) i :
  In (i, name) l -> exists j, find_id name l = Some j.
Proof.
  induction l as [| [j n] l IH]; simpl; [intros [] |].
  intros [[= -> ->] | Hin].
  - rewrite String.eqb_refl. eauto.
  - destruct (n =? name)%string; eauto.
Qed.

Lemma schemas_spec c S r : In r (Query.schemas c S) <-> schema_visible c S r.
Proof. unfold Query.schemas, schema_visible. now rewrite filter_In. Qed.

Lemma tables_spec c S sid r :
  In r (Query.tables c sid S) <-> table_visible c S sid r.
Proof.
  unfold Query.tables, table_visible.
  rewrite filter_In, andb_true_iff, Z.eqb_eq. tauto.
Qed.

(** C6: at the resolved snapshot [S], [read_table] raises the not-found
    [ValueError] for the schema when no schema of that name is visible at
    [S], and the not-found [ValueError] for the table when a schema of that
    name is visible but none of them has a visible table of the given name;
    in both cases no file is read. *)
Theorem read_table_not_found env self sn tn snapshot_id cols S :
  resolves_to self snapshot_id S ->
  ((forall r, schema_visible (engine self) S r ->
              DuckLakeSchema.schema_name r <> sn) ->
   outcome (read_table env self sn tn snapshot_id cols) =
     Raise (ValueError ("Schema '" ++ sn ++ "' not found")%string) /\
   no_file_read (events (read_table env self sn tn snapshot_id cols)))
  /\
  ((exists r, schema_visible (engine self) S r /\
              DuckLakeSchema.schema_name r = sn) ->
   (forall r t, schema_visible (engine self) S r ->
                DuckLakeSchema.schema_name r = sn ->
                table_visible (engine self) S (DuckLakeSchema.schema_id r) t ->
                DuckLakeTable.table_name t <> tn) ->
   outcome (read_table env self sn tn snapshot_id cols) =
     Raise (ValueError ("Table '" ++ tn ++ "' not found in schema '"
                          ++ sn ++ "'")%string) /\
   no_file_read (events (read_table env self sn tn snapshot_id cols))).
Proof.
  intros Hres.
  destruct (read_table_resolved env self sn tn snapshot_id cols S Hres)
    as [-> ->].
  assert (Hpre : no_file_read match snapshot_id with
                              | None => [QCurrentSnapshot]
                              | Some _ => []
                              end).
  { destruct snapshot_id; repeat constructor. }
  unfold read_table. rewrite bind_ret_l. unfold list_schemas.
  rewrite bind_ret_l, !bind_assoc.
  split.
  - intros Hnone.
    cbn [bind emit]. rewrite bind_ret_l.
    rewrite find_id_None.
    + split; [reflexivity |]. apply Forall_app. split; [exact Hpre |].
      repeat constructor.
    + intros p Hp. apply in_map_iff in Hp. destruct Hp as [r [<- Hr]].
      apply Hnone. now apply schemas_spec.
  - intros [r [Hvis Hname]] Hnot.
    cbn [bind emit]. rewrite bind_ret_l.
    destruct (find_id_found sn
                (map (fun r => (DuckLakeSchema.schema_id r,
                                DuckLakeSchema.schema_name r))
                     (Query.schemas (engine self) S))
                (DuckLakeSchema.schema_id r)) as [sid Hsid].
    { apply in_map_iff. exists r. rewrite Hname. split; [reflexivity |].
      now apply schemas_spec. }
    rewrite Hsid. apply find_id_In, in_map_iff in Hsid.
    destruct Hsid as [r' [[= <- Hn'] Hr']]. apply schemas_spec in Hr'.
    unfold list_tables. rewrite bind_ret_l, !bind_assoc.
    cbn [bind emit]. rewrite bind_ret_l.
    rewrite find_id_None.
    + split; [reflexivity |]. apply Forall_app. split; [exact Hpre |].
      repeat constructor.
    + intros p Hp. apply in_map_iff in Hp. destruct Hp as [t [<- Ht]].
      apply (Hnot r' t Hr' Hn'). now apply tables_spec.
Qed.

(** ** Path resolution *)

Lemma is_absolute_join p q :
  is_absolute p = true -> is_absolute (join p q) = true.
Proof.
  intros Hp. unfold join. destruct (is_absolute q) eqn:Hq; [exact Hq |].
  exact Hp.
Qed.

Lemma absolute_of_absolute cwd p : is_absolute p = true -> absolute cwd p = p.
Proof. intros H. unfold absolute. now rewrite H. Qed.

(** With a relative data root the resolved path is not the join, and it
    changes with the working directory of the process. *)
Lemma resolve_path_relative_root_not_join :
  data_path Lake.client_relative_root = Some (of_string "data") /\
  _resolve_path Lake.env Lake.client_relative_root
                "f1.parquet" true "deletes_table" "test_schema" <>
    Ok (of_string "data" // "test_schema" // "deletes_table" // "f1.parquet") /\
  _resolve_path Lake.env Lake.client_relative_root
                "f1.parquet" true "deletes_table" "test_schema" <>
  _resolve_path Lake.env_elsewhere Lake.client_relative_root
                "f1.parquet" true "deletes_table" "test_schema".
Proof.
  split; [reflexivity |]. split; vm_compute; discriminate.
Qed.

(** C7, amended: [_resolve_path] is a function of its arguments, the data
    root and the working directory of the process, and of nothing else.  A
    relative path with a data root resolves to the absolute form of
    [data_root / schema_name / table_name / path], which is that join
    itself when the data root is absolute; a path that is not relative
    resolves to its own absolute form, itself when it is absolute; a
    relative path without a data root raises the [ValueError]. *)
Theorem resolve_path_cases env self path is_relative table_name schema_name :
  (forall dp, is_relative = true -> data_path self = Some dp ->
     _resolve_path env self path is_relative table_name schema_name =
       Ok (absolute (cwd env) (dp // schema_name // table_name // path)) /\
     (is_absolute dp = true ->
      _resolve_path env self path is_relative table_name schema_name =
        Ok (dp // schema_name // table_name // path))) /\
  (is_relative = false ->
     _resolve_path env self path is_relative table_name schema_name =
       Ok (absolute (cwd env) (of_string path)) /\
     (is_absolute (of_string path) = true ->
      _resolve_path env self path is_relative table_name schema_name =
        Ok (of_string path))) /\
  (is_relative = true -> data_path self = None ->
     _resolve_path env self path is_relative table_name schema_name =
       Raise (ValueError "Relative path provided but no data_path configured")) /\
  (forall env' self',
     cwd env' = cwd env -> data_path self' = data_path self ->
     _resolve_path env' self' path is_relative table_name schema_name =
     _resolve_path env self path is_relative table_name schema_name).
Proof.
  unfold _resolve_path. split; [| split; [| split]].
  - intros dp -> Hdp. rewrite Hdp. split; [reflexivity |].
    intros Habs. f_equal. apply absolute_of_absolute.
    unfold div. now repeat apply is_absolute_join.
  - intros ->. split; [reflexivity |].
    intros Habs. f_equal. now apply absolute_of_absolute.
  - intros -> ->. reflexivity.
  - intros env' self' -> ->. reflexivity.
Qed.

(** ** Positional deletes *)

Lemma filter_rows_seq {A} (d : A) (g : nat -> bool) (l : list A) (k : nat) :
  filter_rows l (map g (seq k (List.length l))) =
  map (fun i => nth (i - k) l d) (filter g (seq k (List.length l))).
Proof.
  revert k. induction l as [| a l IH]; intros k; [reflexivity |].
  cbn [List.length seq map filter_rows filter].
  assert (Hshift :
            map (fun i => nth (i - S k) l d) (filter g (seq (S k) (List.length l)))
            = map (fun i => nth (i - k) (a :: l) d)
                  (filter g (seq (S k) (List.length l)))).
  { apply map_ext_in. intros i Hi. apply filter_In in Hi. destruct Hi as [Hi _].
    apply in_seq in Hi. replace (i - k)%nat with (S (i - S k)) by lia.
    reflexivity. }
  destruct (g k); cbn [map]; rewrite IH, Hshift.
  - now rewrite Nat.sub_diag.
  - reflexivity.
Qed.

Lemma py_eq_int_position i v :
  py_eq_int i v = true <-> position_of v = Some i.
Proof.
  destruct v as [| b | z | s]; simpl; try (split; discriminate).
  - rewrite Z.eqb_eq. split; [intros -> | intros [= ->]]; reflexivity.
  - rewrite Z.eqb_eq. split; [intros -> | intros [= ->]]; reflexivity.
Qed.

Lemma py_in_in_range n D i :
  0 <= i < Z.of_nat n -> py_in i (filter (in_range n) D) = py_in i D.
Proof.
  intros Hi. unfold py_in. induction D as [| v D IH]; [reflexivity |].
  cbn [filter existsb]. destruct (in_range n v) eqn:Hv.
  - cbn [existsb]. now rewrite IH.
  - rewrite IH. destruct (py_eq_int i v) eqn:Hev; [| reflexivity].
    apply py_eq_int_position in Hev. unfold in_range in Hv. rewrite Hev in Hv.
    lia.
Qed.

(** The filter raises on a table without rows and yields the table
    without the deleted rows otherwise. *)
Lemma apply_deletes_cases D t :
  apply_deletes D t =
  match rows t with
  | [] => Raise ArrowNotImplementedError
  | _ :: _ => Ok (without_deleted D t)
  end.
Proof.
  unfold apply_deletes, table_filter, without_deleted, range, num_rows.
  destruct (rows t); reflexivity.
Qed.

Lemma apply_deletes_nonempty D t :
  rows t <> [] -> apply_deletes D t = Ok (without_deleted D t).
Proof.
  intros H. rewrite apply_deletes_cases. now destruct (rows t).
Qed.

Lemma apply_deletes_empty D t :
  rows t = [] -> apply_deletes D t = Raise ArrowNotImplementedError.
Proof.
  intros H. rewrite apply_deletes_cases. now rewrite H.
Qed.

Lemma apply_deletes_inv D t out :
  apply_deletes D t = Ok out -> rows t <> [] /\ out = without_deleted D t.
Proof.
  rewrite apply_deletes_cases. destruct (rows t); [discriminate |].
  intros [= <-]. now split.
Qed.

(** Two position lists that name the same positions of the table leave
    the same rows. *)
Lemma without_deleted_agree D1 D2 t :
  (forall i, 0 <= i < Z.of_nat (num_rows t) -> py_in i D1 = py_in i D2) ->
  without_deleted D1 t = without_deleted D2 t.
Proof.
  intros H. unfold without_deleted, range. f_equal. f_equal.
  rewrite !map_map. apply map_ext_in. intros i Hi. apply in_seq in Hi.
  f_equal. apply H. lia.
Qed.

Lemma apply_deletes_agree D1 D2 t :
  (forall i, 0 <= i < Z.of_nat (num_rows t) -> py_in i D1 = py_in i D2) ->
  apply_deletes D1 t = apply_deletes D2 t.
Proof.
  intros H. rewrite !apply_deletes_cases. destruct (rows t) eqn:E; [reflexivity |].
  f_equal. now apply without_deleted_agree.
Qed.

Lemma without_deleted_rows D t :
  rows (without_deleted D t) =
  map (fun i => nth i (rows t) [])
      (filter (fun i => negb (py_in (Z.of_nat i) D)) (seq 0 (num_rows t))).
Proof.
  unfold without_deleted, range, num_rows. cbn [rows].
  rewrite map_map.
  rewrite (filter_rows_seq [] (fun i => negb (py_in (Z.of_nat i) D))).
  apply map_ext. intros i. now rewrite Nat.sub_0_r.
Qed.

Lemma outcome_lift {A} (r : result A) : outcome (lift r) = r.
Proof. reflexivity. Qed.

Lemma pq_read_table_outcome env p cols :
  outcome (pq_read_table env p cols) =
  match files env p with
  | None => Raise (FileNotFoundError p)
  | Some t => match cols with
              | None => Ok t
              | Some names => project names t
              end
  end.
Proof.
  unfold pq_read_table. rewrite outcome_bind. cbn [outcome emit snd].
  destruct (files env p) as [t |]; [destruct cols |]; reflexivity.
Qed.

Lemma _read_delete_row_ids_outcome env q :
  outcome (_read_delete_row_ids env q) =
  match files env (to_string q) with
  | None => Raise (FileNotFoundError (to_string q))
  | Some dt => column_to_pylist "pos" dt
  end.
Proof.
  unfold _read_delete_row_ids. rewrite outcome_bind, pq_read_table_outcome.
  destruct (files env (to_string q)); reflexivity.
Qed.

(** What one turn of the loop yields, step by step. *)
Lemma read_data_file_outcome env self tn sn cols df :
  outcome (read_data_file env self tn sn cols df) =
  match _resolve_path env self (data_file_path df) (path_is_relative df) tn sn with
  | Raise e => Raise e
  | Ok p =>
      match outcome (pq_read_table env (to_string p) cols) with
      | Raise e => Raise e
      | Ok t =>
          match delete_path_truthy (delete_file_path df) with
          | None => Ok t
          | Some dfp =>
              match _resolve_path env self dfp (path_is_relative df) tn sn with
              | Raise e => Raise e
              | Ok q =>
                  match outcome (_read_delete_row_ids env q) with
                  | Raise e => Raise e
                  | Ok D => apply_deletes D t
                  end
              end
          end
      end
  end.
Proof.
  unfold read_data_file. rewrite outcome_bind, outcome_lift.
  destruct (_resolve_path env self (data_file_path df) _ tn sn) as [p | e];
    [| reflexivity].
  rewrite outcome_bind.
  destruct (outcome (pq_read_table env (to_string p) cols)) as [t | e];
    [| reflexivity].
  destruct (delete_path_truthy (delete_file_path df)) as [dfp |];
    [| reflexivity].
  rewrite outcome_bind, outcome_lift.
  destruct (_resolve_path env self dfp _ tn sn) as [q | e]; [| reflexivity].
  rewrite outcome_bind.
  destruct (outcome (_read_delete_row_ids env q)); reflexivity.
Qed.

(** The turn of the loop for a data file with a delete file, once both
    are decoded: the outcome of the filter. *)
Lemma read_data_file_filters env self tn sn cols df dfp p q t dt D :
  delete_path_truthy (delete_file_path df) = Some dfp ->
  _resolve_path env self (data_file_path df) (path_is_relative df) tn sn = Ok p ->
  _resolve_path env self dfp (path_is_relative df) tn sn = Ok q ->
  outcome (pq_read_table env (to_string p) cols) = Ok t ->
  files env (to_string q) = Some dt ->
  column_to_pylist "pos" dt = Ok D ->
  outcome (read_data_file env self tn sn cols df) = apply_deletes D t.
Proof.
  intros Hdel Hp Hq Ht Hdt HD.
  rewrite read_data_file_outcome, Hp, Ht, Hdel, Hq.
  now rewrite _read_delete_row_ids_outcome, Hdt, HD.
Qed.

(** When a data file decodes to a table [t] of at least one row and its
    delete file to the position list [D], the turn of the loop raises
    nothing and yields the rows of [t] at the positions not in [D], in the
    order of [t], under the schema of [t]; the entries of [D] that are
    negative or past the last row can be dropped without changing the
    result. *)
Lemma read_data_file_deletes env self tn sn cols df dfp p q t dt D :
  delete_path_truthy (delete_file_path df) = Some dfp ->
  _resolve_path env self (data_file_path df) (path_is_relative df) tn sn = Ok p ->
  _resolve_path env self dfp (path_is_relative df) tn sn = Ok q ->
  outcome (pq_read_table env (to_string p) cols) = Ok t ->
  files env (to_string q) = Some dt ->
  column_to_pylist "pos" dt = Ok D ->
  rows t <> [] ->
  exists out,
    outcome (read_data_file env self tn sn cols df) = Ok out /\
    schema out = schema t /\
    rows out =
      map (fun i => nth i (rows t) [])
          (filter (fun i => negb (py_in (Z.of_nat i) D)) (seq 0 (num_rows t))) /\
    apply_deletes (filter (in_range (num_rows t)) D) t = Ok out.
Proof.
  intros Hdel Hp Hq Ht Hdt HD Hrows.
  exists (without_deleted D t). split; [| split; [| split]].
  - rewrite (read_data_file_filters _ _ _ _ _ _ _ _ _ _ _ _ Hdel Hp Hq Ht Hdt HD).
    now apply apply_deletes_nonempty.
  - reflexivity.
  - apply without_deleted_rows.
  - rewrite apply_deletes_nonempty by assumption. f_equal.
    apply without_deleted_agree. intros i Hi. now apply py_in_in_range.
Qed.

(** When the data file decodes to a table without rows, the turn raises,
    whatever the position list. *)
Lemma read_data_file_empty_raises env self tn sn cols df dfp p q t dt D :
  delete_path_truthy (delete_file_path df) = Some dfp ->
  _resolve_path env self (data_file_path df) (path_is_relative df) tn sn = Ok p ->
  _resolve_path env self dfp (path_is_relative df) tn sn = Ok q ->
  outcome (pq_read_table env (to_string p) cols) = Ok t ->
  files env (to_string q) = Some dt ->
  column_to_pylist "pos" dt = Ok D ->
  rows t = [] ->
  outcome (read_data_file env self tn sn cols df) = Raise ArrowNotImplementedError.
Proof.
  intros Hdel Hp Hq Ht Hdt HD Hrows.
  rewrite (read_data_file_filters _ _ _ _ _ _ _ _ _ _ _ _ Hdel Hp Hq Ht Hdt HD).
  now apply apply_deletes_empty.
Qed.

(** C3: the small lake with a first data file that holds no row, paired
    from snapshot 3 on with the delete file [d1].  The data file decodes to
    a table of zero rows and the delete file to the positions 1 and 7, both
    past the end of the file; the turn of the loop, and with it
    [read_table] at snapshot 3, raises [ArrowNotImplementedError] instead
    of yielding the zero rows of the file.  At snapshot 2, before the
    delete file, the same files are read without an error. *)
Theorem delete_on_empty_data_file_raises :
  outcome (pq_read_table Cases.env_f1_empty (to_string Lake.f1_path) None) =
    Ok Cases.f1_empty /\
  num_rows Cases.f1_empty = 0%nat /\
  outcome (_read_delete_row_ids Cases.env_f1_empty Lake.d1_path) =
    Ok [VInt 1; VInt 7] /\
  outcome (read_data_file Cases.env_f1_empty Lake.client "deletes_table"
                          "test_schema" None Lake.df1) =
    Raise ArrowNotImplementedError /\
  outcome (read_table Cases.env_f1_empty Lake.client "test_schema"
                      "deletes_table" None None) =
    Raise ArrowNotImplementedError /\
  outcome (read_table Cases.env_f1_empty Lake.client "test_schema"
                      "deletes_table" (Some 2) None) = Ok Lake.f2.
Proof. repeat split; vm_compute; reflexivity. Qed.

(** ** ORDER BY *)

Section OrderBy.

Context {A : Type} (key : A -> Z).

Lemma insert_by_perm x l : Permutation (insert_by key x l) (x :: l).
Proof.
  induction l as [| y l IH]; simpl; [reflexivity |].
  destruct (key x <=? key y); [reflexivity |].
  rewrite IH. apply perm_swap.
Qed.

Lemma order_by_perm l : Permutation (order_by key l) l.
Proof.
  induction l as [| x l IH]; simpl; [reflexivity |].
  rewrite insert_by_perm. now apply perm_skip.
Qed.

Lemma order_by_In x l : In x (order_by key l) <-> In x l.
Proof.
  split; apply Permutation_in;
    [apply order_by_perm | symmetry; apply order_by_perm].
Qed.

Lemma insert_by_sorted x l :
  StronglySorted (key_le key) l -> StronglySorted (key_le key) (insert_by key x l).
Proof.
  induction 1 as [| y l Hs IH Hall]; simpl.
  - repeat constructor.
  - destruct (Z.leb_spec (key x) (key y)) as [Hle | Hgt].
    + constructor; [now constructor |].
      constructor; [unfold key_le; lia |].
      eapply Forall_impl; [| exact Hall]. unfold key_le. intros; lia.
    + constructor; [exact IH |].
      eapply Permutation_Forall; [symmetry; apply insert_by_perm |].
      constructor; [unfold key_le; lia | exact Hall].
Qed.

Lemma order_by_sorted l : StronglySorted (key_le key) (order_by key l).
Proof.
  induction l as [| x l IH]; simpl; [constructor |].
  now apply insert_by_sorted.
Qed.

End OrderBy.

Lemma filter_map_comm {A B} (p : B -> bool) (g : A -> B) (l : list A) :
  filter p (map g l) = map g (filter (fun a => p (g a)) l).
Proof.
  induction l as [| a l IH]; [reflexivity |].
  cbn [map filter]. destruct (p (g a)); cbn [map]; now rewrite IH.
Qed.

Lemma insert_by_map {A B} (keyA : A -> Z) (keyB : B -> Z) (h : A -> B) x l :
  (forall a, keyB (h a) = keyA a) ->
  insert_by keyB (h x) (map h l) = map h (insert_by keyA x l).
Proof.
  intros Hk. induction l as [| y l IH]; [reflexivity |].
  cbn [map insert_by]. rewrite !Hk.
  destruct (keyA x <=? keyA y); cbn [map]; [reflexivity | now rewrite IH].
Qed.

(** Sorting commutes with a map that keeps the keys. *)
Lemma order_by_map {A B} (keyA : A -> Z) (keyB : B -> Z) (h : A -> B) l :
  (forall a, keyB (h a) = keyA a) ->
  order_by keyB (map h l) = map h (order_by keyA l).
Proof.
  intros Hk. induction l as [| x l IH]; [reflexivity |].
  cbn [map order_by]. rewrite IH. now apply insert_by_map.
Qed.

(** ** The data-file query *)

Lemma visible_delete_covers S x :
  visible S (DuckLakeDeleteFile.begin_snapshot x)
            (DuckLakeDeleteFile.end_snapshot x) = true <->
  delete_file_covers S x.
Proof.
  unfold visible, delete_file_covers. rewrite andb_true_iff, Z.geb_le.
  destruct (DuckLakeDeleteFile.end_snapshot x) as [e |].
  - rewrite Z.ltb_lt. tauto.
  - tauto.
Qed.

Lemma left_join_Some data del d x :
  In (d, Some x) (Query.left_join data del) <->
  In d data /\ In x del /\
  DuckLakeDeleteFile.data_file_id x = DuckLakeDataFile.data_file_id d.
Proof.
  unfold Query.left_join. rewrite in_flat_map. split.
  - intros [d' [Hd' Hin]].
    destruct (filter _ del) as [| m ms] eqn:Hf.
    + destruct Hin as [[=] | []].
    + rewrite <- Hf in Hin. apply in_map_iff in Hin.
      destruct Hin as [x' [[= -> ->] Hx]]. apply filter_In in Hx.
      destruct Hx as [Hx Hid]. apply Z.eqb_eq in Hid. auto.
  - intros [Hd [Hx Hid]]. exists d. split; [exact Hd |].
    assert (Hin : In x (filter (fun x0 => DuckLakeDataFile.data_file_id d =?
                                          DuckLakeDeleteFile.data_file_id x0) del)).
    { apply filter_In. split; [exact Hx |]. apply Z.eqb_eq. now symmetry. }
    destruct (filter _ del) as [| m ms] eqn:Hf; [destruct Hin |].
    rewrite <- Hf. apply in_map_iff. exists x. split; [reflexivity |].
    rewrite Hf. exact Hin.
Qed.

Lemma left_join_None data del d :
  In (d, None) (Query.left_join data del) <->
  In d data /\
  forall x, In x del ->
            DuckLakeDeleteFile.data_file_id x <> DuckLakeDataFile.data_file_id d.
Proof.
  unfold Query.left_join. rewrite in_flat_map. split.
  - intros [d' [Hd' Hin]].
    destruct (filter _ del) as [| m ms] eqn:Hf.
    + destruct Hin as [[= ->] | []]. split; [exact Hd' |].
      intros x Hx Hid.
      assert (Hin : In x []); [| destruct Hin].
      rewrite <- Hf. apply filter_In. split; [exact Hx |].
      apply Z.eqb_eq. now symmetry.
    + apply in_map_iff in Hin. destruct Hin as [x' [[=] _]].
  - intros [Hd Hno]. exists d. split; [exact Hd |].
    destruct (filter _ del) as [| m ms] eqn:Hf; [now left |].
    exfalso. assert (Hm : In m (m :: ms)) by now left.
    rewrite <- Hf in Hm. apply filter_In in Hm. destruct Hm as [Hm Hid].
    apply Z.eqb_eq in Hid. now apply (Hno m Hm).
Qed.

Lemma data_files_In c tid S j :
  In j (Query.data_files c tid S) <->
  In j (Query.left_join (ducklake_data_file c) (Query.del c S)) /\
  DuckLakeDataFile.table_id (fst j) = tid /\
  visible S (DuckLakeDataFile.begin_snapshot (fst j))
            (DuckLakeDataFile.end_snapshot (fst j)) = true.
Proof.
  unfold Query.data_files.
  rewrite order_by_In, filter_In, andb_true_iff, Z.eqb_eq. tauto.
Qed.

(** When a result row of the data-file query carries a delete file. *)
Lemma data_files_Some c tid S d x :
  In (d, Some x) (Query.data_files c tid S) <->
  data_file_visible c S tid d /\
  In x (ducklake_delete_file c) /\
  delete_file_covers S x /\
  DuckLakeDeleteFile.data_file_id x = DuckLakeDataFile.data_file_id d.
Proof.
  rewrite data_files_In, left_join_Some. unfold Query.del, data_file_visible.
  rewrite filter_In, visible_delete_covers. cbn [fst]. tauto.
Qed.

(** When a result row of the data-file query carries none. *)
Lemma data_files_None c tid S d :
  In (d, None) (Query.data_files c tid S) <->
  data_file_visible c S tid d /\
  forall x, In x (ducklake_delete_file c) -> delete_file_covers S x ->
            DuckLakeDeleteFile.data_file_id x <> DuckLakeDataFile.data_file_id d.
Proof.
  rewrite data_files_In, left_join_None. unfold Query.del, data_file_visible.
  cbn [fst]. split.
  - intros [[Hd Hno] [Htid Hvis]]. repeat split; try assumption.
    intros x Hx Hcov. apply Hno. apply filter_In. split; [exact Hx |].
    now apply visible_delete_covers.
  - intros [[Hd [Htid Hvis]] Hno]. repeat split; try assumption.
    intros x Hx. apply filter_In in Hx. destruct Hx as [Hx Hcov].
    apply Hno; [exact Hx |]. now apply visible_delete_covers.
Qed.

Lemma get_data_files_run self tid snapshot_id S :
  resolves_to self snapshot_id S ->
  outcome (get_data_files self tid snapshot_id) =
  Ok (map to_DataFile (Query.data_files (engine self) tid S)).
Proof.
  unfold get_data_files. destruct snapshot_id as [s |]; simpl.
  - intros ->. reflexivity.
  - intros Hcur. rewrite !outcome_bind, get_current_snapshot_id_run, Hcur.
    reflexivity.
Qed.

(** C4: at the resolved snapshot [S], [get_data_files] returns the rows of
    the data-file query; a row carries a delete file path only when that
    path is the one of a delete file row of the catalog whose validity
    interval covers [S] and whose [data_file_id] is that of the data file of
    the row; a delete file row whose interval does not cover [S] is in no
    row of the result, whatever data file it refers to. *)
Theorem get_data_files_attaches_covering_delete_files self tid snapshot_id S :
  resolves_to self snapshot_id S ->
  outcome (get_data_files self tid snapshot_id) =
    Ok (map to_DataFile (Query.data_files (engine self) tid S)) /\
  (forall df p,
     In df (map to_DataFile (Query.data_files (engine self) tid S)) ->
     delete_file_path df = Some p ->
     exists d x,
       In (d, Some x) (Query.data_files (engine self) tid S) /\
       df = to_DataFile (d, Some x) /\
       data_file_visible (engine self) S tid d /\
       In x (ducklake_delete_file (engine self)) /\
       DuckLakeDeleteFile.path x = p /\
       delete_file_covers S x /\
       DuckLakeDeleteFile.data_file_id x = DuckLakeDataFile.data_file_id d) /\
  (forall d x,
     ~ delete_file_covers S x ->
     ~ In (d, Some x) (Query.data_files (engine self) tid S)).
Proof.
  intros Hres. split; [now apply get_data_files_run |]. split.
  - intros df p Hin Hp. apply in_map_iff in Hin.
    destruct Hin as [[d [x |]] [<- Hj]]; [| discriminate].
    injection Hp as <-. exists d, x.
    pose proof Hj as Hj'. apply data_files_Some in Hj'. tauto.
  - intros d x Hnot Hin. apply data_files_Some in Hin. tauto.
Qed.

(** ** The materializer, step by step *)

Lemma read_table_found env self sn tn cols S tid :
  table_id_of self sn tn S = Some tid ->
  outcome (read_table env self sn tn (Some S) cols) =
  outcome (_read_table env self tid tn sn (Some S) cols).
Proof.
  unfold table_id_of, read_table, list_schemas, list_tables. intros H.
  repeat (rewrite outcome_bind; cbn [outcome ret emit snd]).
  destruct (find_id sn _) as [sid |]; [| discriminate].
  repeat (rewrite outcome_bind; cbn [outcome ret emit snd]).
  now rewrite H.
Qed.

Lemma read_data_files_ok env self tn sn cols dfs ts :
  Forall2 (fun df t => outcome (read_data_file env self tn sn cols df) = Ok t)
          dfs ts ->
  outcome (read_data_files env self tn sn cols dfs) = Ok ts.
Proof.
  induction 1 as [| df t dfs ts Hdf _ IH]; [reflexivity |].
  cbn [read_data_files]. rewrite outcome_bind, Hdf, outcome_bind, IH.
  reflexivity.
Qed.

Lemma read_data_files_inv env self tn sn cols dfs ts :
  outcome (read_data_files env self tn sn cols dfs) = Ok ts ->
  Forall2 (fun df t => outcome (read_data_file env self tn sn cols df) = Ok t)
          dfs ts.
Proof.
  revert ts. induction dfs as [| df dfs IH]; intros ts.
  - intros [= <-]. constructor.
  - cbn [read_data_files]. rewrite outcome_bind.
    destruct (outcome (read_data_file env self tn sn cols df)) as [t | e] eqn:Hdf;
      [| discriminate].
    rewrite outcome_bind.
    destruct (outcome (read_data_files env self tn sn cols dfs)) as [ts' | e];
      [| discriminate].
    intros [= <-]. constructor; [exact Hdf | now apply IH].
Qed.

(** A file that cannot be read stops the loop. *)
Lemma read_data_files_raises env self tn sn cols dfs df e :
  In df dfs ->
  outcome (read_data_file env self tn sn cols df) = Raise e ->
  exists e', outcome (read_data_files env self tn sn cols dfs) = Raise e'.
Proof.
  induction dfs as [| df' dfs IH]; [intros [] |].
  intros Hin He. cbn [read_data_files]. rewrite outcome_bind.
  destruct (outcome (read_data_file env self tn sn cols df')) as [t | e1] eqn:H1;
    [| eauto].
  destruct Hin as [-> | Hin]; [congruence |].
  destruct (IH Hin He) as [e' He']. rewrite outcome_bind, He'. eauto.
Qed.

Lemma _read_table_outcome env self tid tn sn S cols :
  outcome (_read_table env self tid tn sn (Some S) cols) =
  match map to_DataFile (Query.data_files (engine self) tid S) with
  | [] =>
      if columns_truthy cols then Raise (UnboundLocalError "table_columns")
      else Ok (empty_table
                 (map (fun r => {| f_name := DuckLakeColumn.column_name r;
                                   f_type := "string" |})
                      (Query.columns (engine self) tid S)))
  | df :: dfs =>
      match outcome (read_data_files env self tn sn cols (df :: dfs)) with
      | Raise e => Raise e
      | Ok [t] => Ok t
      | Ok ts => concat_tables ts
      end
  end.
Proof.
  unfold _read_table, get_data_files, get_table_columns.
  repeat (rewrite outcome_bind; cbn [outcome ret emit snd]).
  destruct (map to_DataFile (Query.data_files (engine self) tid S))
    as [| df dfs].
  - destruct (columns_truthy cols).
    + now rewrite outcome_bind.
    + repeat (rewrite outcome_bind; cbn [outcome ret emit snd]).
      now rewrite map_map.
  - rewrite outcome_bind.
    destruct (outcome (read_data_files env self tn sn cols (df :: dfs)))
      as [[| t [| t' ts]] | e]; reflexivity.
Qed.

Lemma left_join_fst data del j :
  In j (Query.left_join data del) -> In (fst j) data.
Proof.
  destruct j as [d [x |]]; intros H.
  - now apply left_join_Some in H.
  - now apply left_join_None in H.
Qed.

Lemma left_join_covers data del d :
  In d data -> exists ox, In (d, ox) (Query.left_join data del).
Proof.
  intros Hd.
  destruct (filter (fun x => DuckLakeDataFile.data_file_id d =?
                             DuckLakeDeleteFile.data_file_id x) del)
    as [| m ms] eqn:Hf.
  - exists None. apply left_join_None. split; [exact Hd |].
    intros x Hx Hid. assert (Hin : In x []); [| destruct Hin].
    rewrite <- Hf. apply filter_In. split; [exact Hx |].
    apply Z.eqb_eq. now symmetry.
  - exists (Some m). assert (Hm : In m (m :: ms)) by now left.
    rewrite <- Hf in Hm. apply filter_In in Hm. destruct Hm as [Hm Hid].
    apply Z.eqb_eq in Hid. apply left_join_Some. auto.
Qed.

(** The data files of the result are the visible data files of the table. *)
Lemma data_files_fst c tid S d :
  In d (map fst (Query.data_files c tid S)) <-> data_file_visible c S tid d.
Proof.
  rewrite in_map_iff. unfold data_file_visible. split.
  - intros [j [<- Hj]]. apply data_files_In in Hj.
    destruct Hj as [Hj [Htid Hvis]]. apply left_join_fst in Hj. auto.
  - intros [Hd [Htid Hvis]].
    destruct (left_join_covers _ (Query.del c S) d Hd) as [ox Hox].
    exists (d, ox). split; [reflexivity |]. apply data_files_In. auto.
Qed.

Lemma no_data_files c tid S :
  (forall d, ~ data_file_visible c S tid d) -> Query.data_files c tid S = [].
Proof.
  intros Hno. destruct (Query.data_files c tid S) as [| j l] eqn:E;
    [reflexivity |].
  exfalso. apply (Hno (fst j)). apply data_files_fst. rewrite E. now left.
Qed.

(** ** A table without data files *)

(** What [read_table] does for a table that has no data file visible at
    the snapshot: zero rows under the catalog's columns without a
    projection, an [UnboundLocalError] with one. *)
Lemma read_table_no_data_files env self sn tn snapshot_id cols S tid :
  resolves_to self snapshot_id S ->
  table_id_of self sn tn S = Some tid ->
  (forall d, ~ data_file_visible (engine self) S tid d) ->
  outcome (read_table env self sn tn snapshot_id cols) =
  if columns_truthy cols then Raise (UnboundLocalError "table_columns")
  else Ok (empty_table
             (map (fun r => {| f_name := DuckLakeColumn.column_name r;
                               f_type := "string" |})
                  (Query.columns (engine self) tid S))).
Proof.
  intros Hres Htid Hno.
  destruct (read_table_resolved env self sn tn snapshot_id cols S Hres)
    as [-> _].
  rewrite (read_table_found _ _ _ _ _ _ _ Htid), _read_table_outcome.
  now rewrite (no_data_files _ _ _ Hno).
Qed.

(** C2: the table [empty_table] of the small lake has no data file at
    snapshot 3.  Read without a projection it gives zero rows; read with
    the projection [["id"]] the call raises [UnboundLocalError] for
    [table_columns] instead of giving zero rows. *)
Theorem read_empty_table_with_columns_raises :
  table_id_of Lake.client "test_schema" "empty_table" 3 = Some 3 /\
  Query.data_files Lake.catalog 3 3 = [] /\
  outcome (read_table Lake.env Lake.client "test_schema" "empty_table" None None) =
    Ok {| schema := [ {| f_name := "id"; f_type := "string" |};
                      {| f_name := "name"; f_type := "string" |} ];
          rows := [] |} /\
  outcome (read_table Lake.env Lake.client "test_schema" "empty_table" None
                      (Some ["id"])) =
    Raise (UnboundLocalError "table_columns").
Proof. repeat split; vm_compute; reflexivity. Qed.

(** ** Delete files *)

Lemma get_all_field_indices_from_absent i name sch :
  (forall f, In f sch -> f_name f <> name) ->
  get_all_field_indices_from i name sch = [].
Proof.
  revert i. induction sch as [| f sch IH]; intros i H; [reflexivity |].
  cbn [get_all_field_indices_from].
  destruct (String.eqb_spec (f_name f) name) as [E | _].
  - exfalso. now apply (H f); [left |].
  - apply IH. intros g Hg. apply H. now right.
Qed.

Lemma field_index_absent name sch :
  (forall f, In f sch -> f_name f <> name) -> field_index name sch = None.
Proof.
  intros H. unfold field_index, get_all_field_indices.
  now rewrite get_all_field_indices_from_absent.
Qed.

(** A delete file without a column [pos] stops the turn of the loop. *)
Lemma read_data_file_without_pos env self tn sn cols df dfp q dt :
  delete_path_truthy (delete_file_path df) = Some dfp ->
  _resolve_path env self dfp (path_is_relative df) tn sn = Ok q ->
  files env (to_string q) = Some dt ->
  (forall f, In f (schema dt) -> f_name f <> "pos") ->
  exists e, outcome (read_data_file env self tn sn cols df) = Raise e.
Proof.
  intros Hdel Hq Hdt Hno. rewrite read_data_file_outcome.
  destruct (_resolve_path env self (data_file_path df) _ tn sn) as [p | e];
    [| eauto].
  destruct (outcome (pq_read_table env (to_string p) cols)) as [t | e];
    [| eauto].
  rewrite Hdel, Hq, _read_delete_row_ids_outcome, Hdt.
  unfold column_to_pylist. rewrite (field_index_absent _ _ Hno). eauto.
Qed.

(** C10: a delete file that decodes to the table [dt] gives as position
    list the values of the one column of [dt] named [pos], and the turn of
    the loop ends as the filter of the decoded data file with exactly that
    list ends.  When [dt] has no
    column named [pos] the reader of the delete file raises [KeyError], and
    every [read_table] call whose data files include one paired with this
    delete file raises instead of returning a table. *)
Theorem delete_positions_are_pos_column env self q dt :
  files env (to_string q) = Some dt ->
  (forall i, field_index "pos" (schema dt) = Some i ->
     outcome (_read_delete_row_ids env q) =
       Ok (map (fun r => cell r i) (rows dt)) /\
     forall tn sn cols df dfp p t,
       delete_path_truthy (delete_file_path df) = Some dfp ->
       _resolve_path env self (data_file_path df) (path_is_relative df) tn sn
         = Ok p ->
       _resolve_path env self dfp (path_is_relative df) tn sn = Ok q ->
       outcome (pq_read_table env (to_string p) cols) = Ok t ->
       outcome (read_data_file env self tn sn cols df) =
         apply_deletes (map (fun r => cell r i) (rows dt)) t) /\
  ((forall f, In f (schema dt) -> f_name f <> "pos") ->
     outcome (_read_delete_row_ids env q) = Raise (KeyError "pos") /\
     forall sn tn snapshot_id cols S tid df dfp,
       resolves_to self snapshot_id S ->
       table_id_of self sn tn S = Some tid ->
       In df (map to_DataFile (Query.data_files (engine self) tid S)) ->
       delete_path_truthy (delete_file_path df) = Some dfp ->
       _resolve_path env self dfp (path_is_relative df) tn sn = Ok q ->
       exists e, outcome (read_table env self sn tn snapshot_id cols) = Raise e).
Proof.
  intros Hdt. split.
  - intros i Hi.
    assert (Hids : outcome (_read_delete_row_ids env q) =
                   Ok (map (fun r => cell r i) (rows dt))).
    { rewrite _read_delete_row_ids_outcome, Hdt. unfold column_to_pylist.
      now rewrite Hi. }
    split; [exact Hids |].
    intros tn sn cols df dfp p t Hdel Hp Hq Ht.
    now rewrite read_data_file_outcome, Hp, Ht, Hdel, Hq, Hids.
  - intros Hno. split.
    + rewrite _read_delete_row_ids_outcome, Hdt. unfold column_to_pylist.
      now rewrite (field_index_absent _ _ Hno).
    + intros sn tn snapshot_id cols S tid df dfp Hres Htid Hin Hdel Hq.
      destruct (read_table_resolved env self sn tn snapshot_id cols S Hres)
        as [-> _].
      rewrite (read_table_found _ _ _ _ _ _ _ Htid), _read_table_outcome.
      destruct (map to_DataFile (Query.data_files (engine self) tid S))
        as [| df0 dfs] eqn:E; [destruct Hin |].
      destruct (read_data_file_without_pos env self tn sn cols df dfp q dt
                  Hdel Hq Hdt Hno) as [e He].
      destruct (read_data_files_raises env self tn sn cols (df0 :: dfs) df e
                  Hin He) as [e' He'].
      rewrite He'. eauto.
Qed.

(** ** Concatenation in file order *)

Lemma Field_eqb_refl f : Field_eqb f f = true.
Proof. unfold Field_eqb. now rewrite !String.eqb_refl. Qed.

Lemma schema_eqb_refl s : schema_eqb s s = true.
Proof.
  induction s as [| f s IH]; [reflexivity |].
  cbn [schema_eqb]. now rewrite Field_eqb_refl, IH.
Qed.

Lemma schema_eqb_eq s1 s2 : schema_eqb s1 s2 = true -> s1 = s2.
Proof.
  revert s2. induction s1 as [| f s1 IH]; intros [| g s2]; try discriminate;
    [reflexivity |].
  cbn [schema_eqb]. rewrite andb_true_iff. intros [Hfg Hs].
  unfold Field_eqb in Hfg. rewrite andb_true_iff, !String.eqb_eq in Hfg.
  destruct f, g; cbn in Hfg. destruct Hfg as [-> ->].
  f_equal. now apply IH.
Qed.

(** Tables of one schema concatenate. *)
Lemma concat_tables_same_schema t ts :
  (forall u, In u ts -> schema u = schema t) ->
  concat_tables (t :: ts) =
  Ok {| schema := schema t;
        rows := match schema t with
                | [] => []
                | _ :: _ => List.concat (map rows (t :: ts))
                end |}.
Proof.
  intros H. unfold concat_tables.
  replace (forallb (fun u => schema_eqb (schema u) (schema t)) ts) with true;
    [reflexivity |].
  symmetry. apply forallb_forall. intros u Hu. rewrite (H u Hu).
  apply schema_eqb_refl.
Qed.

(** With at least one column, rows of earlier tables come first. *)
Lemma concat_tables_columns t ts :
  (forall u, In u ts -> schema u = schema t) ->
  schema t <> [] ->
  concat_tables (t :: ts) =
  Ok {| schema := schema t; rows := List.concat (map rows (t :: ts)) |}.
Proof.
  intros H Hne. rewrite concat_tables_same_schema by exact H.
  now destruct (schema t).
Qed.

(** Without columns the rows are lost. *)
Lemma concat_tables_no_columns t ts :
  (forall u, In u ts -> schema u = schema t) ->
  schema t = [] ->
  concat_tables (t :: ts) = Ok (empty_table []).
Proof.
  intros H He. rewrite concat_tables_same_schema by exact H.
  now rewrite He.
Qed.






(** ** The relativity flag of a delete file *)

Lemma left_join_reflag f data del :
  Query.left_join data (map (with_delete_flag f) del) =
  map (reflag_row f) (Query.left_join data del).
Proof.
  unfold Query.left_join. induction data as [| d data IH]; [reflexivity |].
  cbn [flat_map]. rewrite map_app, IH. f_equal.
  rewrite filter_map_comm. cbn [with_delete_flag DuckLakeDeleteFile.data_file_id].
  destruct (filter _ del) as [| m ms]; [reflexivity |].
  cbn [map]. unfold reflag_row at 1. cbn [fst snd option_map]. f_equal.
  rewrite !map_map. reflexivity.
Qed.

Lemma data_files_reflag f c tid S :
  Query.data_files (with_delete_flags f c) tid S =
  map (reflag_row f) (Query.data_files c tid S).
Proof.
  unfold Query.data_files, Query.del.
  cbn [with_delete_flags ducklake_data_file ducklake_delete_file].
  rewrite filter_map_comm.
  cbn [with_delete_flag DuckLakeDeleteFile.begin_snapshot
         DuckLakeDeleteFile.end_snapshot].
  rewrite left_join_reflag, filter_map_comm.
  now rewrite (order_by_map (fun j => DuckLakeDataFile.file_order (fst j))
                 (fun j => DuckLakeDataFile.file_order (fst j)) (reflag_row f)).
Qed.

Lemma to_DataFile_reflag f j : to_DataFile (reflag_row f j) = to_DataFile j.
Proof. destruct j as [d [x |]]; reflexivity. Qed.

(** [get_data_files] does not read the flag of a delete file. *)
Lemma get_data_files_reflag f self tid snapshot_id :
  get_data_files (reflag f self) tid snapshot_id =
  get_data_files self tid snapshot_id.
Proof.
  unfold get_data_files. apply bind_ext. intros s. apply bind_ext. intros _.
  cbn [reflag engine]. rewrite data_files_reflag, map_map.
  unfold ret. do 2 f_equal. apply map_ext. apply to_DataFile_reflag.
Qed.

Lemma read_data_files_reflag f env self tn sn cols dfs :
  read_data_files env (reflag f self) tn sn cols dfs =
  read_data_files env self tn sn cols dfs.
Proof.
  induction dfs as [| df dfs IH]; [reflexivity |].
  cbn [read_data_files]. rewrite IH. reflexivity.
Qed.

Lemma _read_table_reflag f env self tid tn sn snapshot_id cols :
  _read_table env (reflag f self) tid tn sn snapshot_id cols =
  _read_table env self tid tn sn snapshot_id cols.
Proof.
  unfold _read_table. apply bind_ext. intros s.
  rewrite get_data_files_reflag. apply bind_ext. intros dfs.
  destruct dfs as [| df dfs]; [reflexivity |].
  now rewrite read_data_files_reflag.
Qed.

Lemma read_table_reflag f env self sn tn snapshot_id cols :
  read_table env (reflag f self) sn tn snapshot_id cols =
  read_table env self sn tn snapshot_id cols.
Proof.
  unfold read_table. apply bind_ext. intros s. apply bind_ext. intros schemas.
  destruct (find_id sn schemas) as [sid |]; [| reflexivity].
  apply bind_ext. intros tables.
  destruct (find_id tn tables) as [tid |]; [| reflexivity].
  apply _read_table_reflag.
Qed.

Lemma pq_read_table_events_eq env p cols :
  events (pq_read_table env p cols) = [ReadParquet p cols].
Proof.
  unfold pq_read_table. rewrite events_bind. cbn [events outcome emit fst snd].
  destruct (files env p) as [t |]; [destruct cols |]; reflexivity.
Qed.

Lemma _read_delete_row_ids_events env q :
  events (_read_delete_row_ids env q) = [ReadParquet (to_string q) None].
Proof.
  unfold _read_delete_row_ids. rewrite events_bind, pq_read_table_events_eq.
  destruct (outcome (pq_read_table env (to_string q) None)); reflexivity.
Qed.

(** Two paths with one flag resolve together or not at all. *)
Lemma _resolve_path_same_flag env self path path' flag tn sn p :
  _resolve_path env self path flag tn sn = Ok p ->
  exists q, _resolve_path env self path' flag tn sn = Ok q.
Proof.
  unfold _resolve_path. destruct flag; [| eauto].
  destruct (data_path self); [eauto | discriminate].
Qed.

(** C9: a row of the data-file query that pairs the data file row [d] with
    the delete file row [x] becomes, in the result of [get_data_files], a
    [DataFile] with the path of [x] and the relativity flag of [d]; the turn of the loop reads
    the delete file at its path resolved under the flag of [d].  The flag
    of [x] itself is read nowhere: rewriting the flags of the delete files
    of the catalog changes neither [get_data_files] nor [read_table]. *)
Theorem delete_path_resolved_with_data_file_flag
    env self tid S d x tn sn cols :
  In (d, Some x) (Query.data_files (engine self) tid S) ->
  (exists dfs, outcome (get_data_files self tid (Some S)) = Ok dfs /\
               In (to_DataFile (d, Some x)) dfs) /\
  path_is_relative (to_DataFile (d, Some x)) =
    DuckLakeDataFile.path_is_relative d /\
  delete_file_path (to_DataFile (d, Some x)) = Some (DuckLakeDeleteFile.path x) /\
  (forall p t,
     str_truthy (DuckLakeDeleteFile.path x) = true ->
     _resolve_path env self (DuckLakeDataFile.path d)
                   (DuckLakeDataFile.path_is_relative d) tn sn = Ok p ->
     outcome (pq_read_table env (to_string p) cols) = Ok t ->
     exists q,
       _resolve_path env self (DuckLakeDeleteFile.path x)
                     (DuckLakeDataFile.path_is_relative d) tn sn = Ok q /\
       events (read_data_file env self tn sn cols (to_DataFile (d, Some x))) =
         [ReadParquet (to_string p) cols; ReadParquet (to_string q) None]) /\
  (forall f snapshot_id,
     get_data_files (reflag f self) tid snapshot_id =
       get_data_files self tid snapshot_id /\
     read_table env (reflag f self) sn tn snapshot_id cols =
       read_table env self sn tn snapshot_id cols).
Proof.
  intros Hin. split.
  { eexists. split; [now apply get_data_files_run |]. now apply in_map. }
  split; [reflexivity |]. split; [reflexivity |]. split.
  - intros p t Htruthy Hp Ht.
    destruct (_resolve_path_same_flag env self _ (DuckLakeDeleteFile.path x)
                _ tn sn p Hp) as [q Hq].
    exists q. split; [exact Hq |].
    unfold read_data_file.
    cbn [to_DataFile data_file_path path_is_relative delete_file_path
           fst snd option_map].
    unfold delete_path_truthy. rewrite Htruthy, Hp, Hq.
    rewrite events_bind. cbn [events outcome lift fst snd app].
    rewrite events_bind, pq_read_table_events_eq, Ht.
    rewrite events_bind. cbn [events outcome lift fst snd app].
    rewrite events_bind, _read_delete_row_ids_events.
    destruct (outcome (_read_delete_row_ids env q)); reflexivity.
  - intros f snapshot_id. split.
    + apply get_data_files_reflag.
    + apply read_table_reflag.
Qed.

(** ** Projection *)

Lemma filter_rows_map {A B} (g : A -> B) (l : list A) (mask : list bool) :
  filter_rows (map g l) mask = map g (filter_rows l mask).
Proof.
  revert mask. induction l as [| a l IH]; intros [| b mask]; try reflexivity.
  cbn [map filter_rows]. destruct b; cbn [map]; now rewrite IH.
Qed.

(** Deleting positions and taking columns commute. *)
Lemma without_deleted_take_columns D idxs t :
  without_deleted D (take_columns idxs t) =
  take_columns idxs (without_deleted D t).
Proof.
  unfold without_deleted, take_columns, num_rows.
  cbn [schema rows]. rewrite length_map. f_equal. apply filter_rows_map.
Qed.

Lemma apply_deletes_take_columns D idxs t u :
  apply_deletes D t = Ok u ->
  apply_deletes D (take_columns idxs t) = Ok (take_columns idxs u).
Proof.
  intros Hu. apply apply_deletes_inv in Hu. destruct Hu as [Hrows ->].
  rewrite apply_deletes_nonempty.
  - now rewrite without_deleted_take_columns.
  - unfold take_columns. cbn [rows]. now destruct (rows t).
Qed.

Lemma apply_deletes_schema D t u :
  apply_deletes D t = Ok u -> schema u = schema t.
Proof.
  intros Hu. apply apply_deletes_inv in Hu. now destruct Hu as [_ ->].
Qed.

(** A turn of the loop with a projection is the turn without it followed
    by the projection, when the columns asked for are columns of the
    file. *)
Lemma read_data_file_projected env self tn sn names idxs df u :
  outcome (read_data_file env self tn sn None df) = Ok u ->
  field_indices names (schema u) = Some idxs ->
  outcome (read_data_file env self tn sn (Some names) df) =
    Ok (take_columns idxs u).
Proof.
  rewrite !read_data_file_outcome.
  destruct (_resolve_path env self (data_file_path df) _ tn sn) as [p | e];
    [| discriminate].
  rewrite !pq_read_table_outcome.
  destruct (files env (to_string p)) as [t0 |]; [| discriminate].
  destruct (delete_path_truthy (delete_file_path df)) as [dfp |].
  - destruct (_resolve_path env self dfp _ tn sn) as [q | e]; [| discriminate].
    destruct (outcome (_read_delete_row_ids env q)) as [D | e];
      [| discriminate].
    intros Hu. rewrite (apply_deletes_schema _ _ _ Hu). intros Hidx.
    unfold project. rewrite Hidx. now apply apply_deletes_take_columns.
  - intros [= <-] Hidx. unfold project. now rewrite Hidx.
Qed.

Lemma read_data_files_projected env self tn sn names idxs sch dfs ts :
  outcome (read_data_files env self tn sn None dfs) = Ok ts ->
  (forall u, In u ts -> schema u = sch) ->
  field_indices names sch = Some idxs ->
  outcome (read_data_files env self tn sn (Some names) dfs) =
    Ok (map (take_columns idxs) ts).
Proof.
  intros Hts Hsch Hidx. apply read_data_files_inv in Hts.
  apply read_data_files_ok.
  induction Hts as [| df u dfs ts Hu _ IH]; cbn [map]; constructor.
  - apply read_data_file_projected; [exact Hu |].
    rewrite (Hsch u); [exact Hidx | now left].
  - apply IH. intros v Hv. apply Hsch. now right.
Qed.

Lemma concat_tables_inv t ts r :
  concat_tables (t :: ts) = Ok r ->
  (forall u, In u ts -> schema u = schema t) /\
  r = {| schema := schema t;
         rows := match schema t with
                 | [] => []
                 | _ :: _ => List.concat (map rows (t :: ts))
                 end |}.
Proof.
  unfold concat_tables.
  destruct (forallb _ ts) eqn:Hall; [| discriminate].
  intros [= <-]. split; [| reflexivity].
  intros u Hu. rewrite forallb_forall in Hall. now apply schema_eqb_eq, Hall.
Qed.

Lemma take_columns_concat idxs sch (ts : list Table) :
  take_columns idxs {| schema := sch; rows := List.concat (map rows ts) |} =
  {| schema := map (fun i => nth i sch no_field) idxs;
     rows := List.concat (map rows (map (take_columns idxs) ts)) |}.
Proof.
  unfold take_columns. cbn [schema rows]. f_equal.
  rewrite concat_map, !map_map. reflexivity.
Qed.

(** A projection onto at least one column needs a column and keeps one. *)
Lemma field_indices_nonempty names sch idxs :
  field_indices names sch = Some idxs -> names <> [] ->
  sch <> [] /\ idxs <> [].
Proof.
  destruct names as [| n names]; [easy |]. cbn [field_indices].
  destruct (field_index n sch) as [i |] eqn:Hi; [| discriminate].
  destruct (field_indices names sch); [| discriminate].
  intros [= <-] _. split; [| discriminate].
  intros ->. discriminate Hi.
Qed.

(** Projection pushdown: for a table with data files, the read with a
    projection onto at least one column returns the columns asked for of
    the table the read without a projection returns. *)
Lemma read_table_projection env self sn tn snapshot_id S tid names idxs t :
  resolves_to self snapshot_id S ->
  table_id_of self sn tn S = Some tid ->
  Query.data_files (engine self) tid S <> [] ->
  names <> [] ->
  outcome (read_table env self sn tn snapshot_id None) = Ok t ->
  field_indices names (schema t) = Some idxs ->
  outcome (read_table env self sn tn snapshot_id (Some names)) =
    Ok (take_columns idxs t).
Proof.
  intros Hres Htid Hne Hnames.
  destruct (read_table_resolved env self sn tn snapshot_id None S Hres)
    as [-> _].
  destruct (read_table_resolved env self sn tn snapshot_id (Some names) S Hres)
    as [-> _].
  rewrite !(read_table_found _ _ _ _ _ _ _ Htid), !_read_table_outcome.
  destruct (Query.data_files (engine self) tid S) as [| j js]; [easy |].
  cbn [map].
  destruct (outcome (read_data_files env self tn sn None
                       (to_DataFile j :: map to_DataFile js)))
    as [ts | e] eqn:Hts; [| discriminate].
  destruct ts as [| t1 [| t2 ts]].
  - apply read_data_files_inv in Hts. inversion Hts.
  - intros [= <-] Hidx.
    rewrite (read_data_files_projected env self tn sn names idxs (schema t1)
               _ _ Hts); [reflexivity | | exact Hidx].
    intros u [<- | []]. reflexivity.
  - intros Hcat Hidx. apply concat_tables_inv in Hcat.
    destruct Hcat as [Hsch ->]. cbn [schema] in Hidx.
    destruct (field_indices_nonempty _ _ _ Hidx Hnames) as [Hcols Hkept].
    rewrite (read_data_files_projected env self tn sn names idxs (schema t1)
               _ _ Hts); [| | exact Hidx].
    + cbn [map]. rewrite concat_tables_columns.
      * f_equal.
        transitivity (take_columns idxs
                        {| schema := schema t1;
                           rows := List.concat (map rows (t1 :: t2 :: ts)) |}).
        -- symmetry.
           apply (take_columns_concat idxs (schema t1) (t1 :: t2 :: ts)).
        -- do 2 f_equal. now destruct (schema t1).
      * intros u Hu.
        change (In u (map (take_columns idxs) (t2 :: ts))) in Hu.
        apply in_map_iff in Hu.
        destruct Hu as [v [<- Hv]]. unfold take_columns. cbn [schema].
        now rewrite (Hsch v Hv).
      * unfold take_columns. cbn [schema]. now destruct idxs.
    + intros u [<- | Hu]; [reflexivity | now apply Hsch].
Qed.

Lemma get_all_field_indices_from_spec k name sch i :
  In i (get_all_field_indices_from k name sch) ->
  (k <= i)%nat /\ f_name (nth (i - k) sch no_field) = name.
Proof.
  revert k. induction sch as [| f sch IH]; intros k; [intros [] |].
  cbn [get_all_field_indices_from].
  destruct (String.eqb_spec (f_name f) name) as [E | _].
  - intros [<- | Hin].
    + rewrite Nat.sub_diag. auto.
    + apply IH in Hin. destruct Hin as [Hle Hn]. split; [lia |].
      replace (i - k)%nat with (S (i - S k)) by lia. exact Hn.
  - intros Hin. apply IH in Hin. destruct Hin as [Hle Hn]. split; [lia |].
    replace (i - k)%nat with (S (i - S k)) by lia. exact Hn.
Qed.

Lemma field_index_name name sch i :
  field_index name sch = Some i -> f_name (nth i sch no_field) = name.
Proof.
  unfold field_index, get_all_field_indices.
  destruct (get_all_field_indices_from 0 name sch) as [| j [| ? ?]] eqn:E;
    try discriminate.
  intros [= <-].
  destruct (get_all_field_indices_from_spec 0 name sch j) as [_ H].
  - rewrite E. now left.
  - now rewrite Nat.sub_0_r in H.
Qed.

(** The columns a projection yields carry the names asked for, in the
    order asked for. *)
Lemma take_columns_names names idxs t :
  field_indices names (schema t) = Some idxs ->
  map f_name (schema (take_columns idxs t)) = names.
Proof.
  unfold take_columns. cbn [schema]. rewrite map_map.
  revert idxs. induction names as [| n names IH]; intros idxs.
  - intros [= <-]. reflexivity.
  - cbn [field_indices].
    destruct (field_index n (schema t)) as [i |] eqn:Hi; [| discriminate].
    destruct (field_indices names (schema t)) as [is_ |]; [| discriminate].
    intros [= <-]. cbn [map]. now rewrite (field_index_name _ _ _ Hi), IH.
Qed.

(** C8: the table [empty_table] of the small lake has the columns [id] and
    [name] and no data file at snapshot 3.  The read without a projection
    returns these two columns with zero rows; the read with
    [columns = ["id"; "name"]] raises [UnboundLocalError] for
    [table_columns] instead of returning that table. *)
Theorem read_empty_table_projected_raises :
  outcome (read_table Lake.env Lake.client "test_schema" "empty_table"
                      (Some 3) None) =
    Ok {| schema := [ {| f_name := "id"; f_type := "string" |};
                      {| f_name := "name"; f_type := "string" |} ];
          rows := [] |} /\
  outcome (read_table Lake.env Lake.client "test_schema" "empty_table"
                      (Some 3) (Some ["id"; "name"])) =
    Raise (UnboundLocalError "table_columns").
Proof. split; vm_compute; reflexivity. Qed.

(** On the table with data files the projection is served. *)
Example read_deletes_table_projected :
  outcome (read_table Lake.env Lake.client "test_schema" "deletes_table"
                      None (Some ["name"; "id"])) =
    Ok {| schema := [ {| f_name := "name"; f_type := "string" |};
                      {| f_name := "id"; f_type := "int32" |} ];
          rows := [ [VStr "Alice"; VInt 1]; [VStr "Charlie"; VInt 3];
                    [VStr "Dave"; VInt 4] ] |}.
Proof. vm_compute. reflexivity. Qed.

(** ** The properties on the small lake *)

(** The first data file of [deletes_table] with its delete file: Bob's
    row is dropped and the position past the end changes nothing. *)
Example read_data_file_deletes_on_lake :
  exists out,
    outcome (read_data_file Lake.env Lake.client "deletes_table" "test_schema"
                            None Lake.df1) = Ok out /\
    rows out = [ [VInt 1; VStr "Alice"]; [VInt 3; VStr "Charlie"] ] /\
    apply_deletes [VInt 1] Lake.f1 = Ok out.
Proof.
  destruct (read_data_file_deletes Lake.env Lake.client "deletes_table"
              "test_schema" None Lake.df1 "d1.parquet" Lake.f1_path
              Lake.d1_path Lake.f1 Lake.d1 [VInt 1; VInt 7]
              eq_refl eq_refl eq_refl eq_refl eq_refl eq_refl)
    as [out [Hout [_ [Hrows Hdrop]]]]; [discriminate |].
  exists out. split; [exact Hout |]. split; [| exact Hdrop].
  rewrite Hrows. reflexivity.
Qed.

Lemma get_data_files_attaches_covering_delete_files_witness :
  resolves_to Lake.client None 3 /\
  outcome (get_data_files Lake.client 2 None) =
    Ok [ Lake.df1;
         {| data_file_path := "f2.parquet"; delete_file_path := None;
            path_is_relative := true |} ] /\
  outcome (get_data_files Lake.client 2 (Some 2)) =
    Ok [ {| data_file_path := "f1.parquet"; delete_file_path := None;
            path_is_relative := true |};
         {| data_file_path := "f2.parquet"; delete_file_path := None;
            path_is_relative := true |} ].
Proof.
  split; [reflexivity |]. split.
  - destruct (get_data_files_attaches_covering_delete_files
                Lake.client 2 None 3 eq_refl) as [H _].
    rewrite H. reflexivity.
  - destruct (get_data_files_attaches_covering_delete_files
                Lake.client 2 (Some 2) 2 eq_refl) as [H _].
    rewrite H. reflexivity.
Defined.


Lemma read_table_not_found_witness :
  (resolves_to Lake.client None 3 /\
   outcome (read_table Lake.env Lake.client "missing_schema" "t" None None) =
     Raise (ValueError "Schema 'missing_schema' not found") /\
   no_file_read
     (events (read_table Lake.env Lake.client "missing_schema" "t" None None)))
  /\
  (resolves_to Lake.client (Some 3) 3 /\
   outcome (read_table Lake.env Lake.client "test_schema" "missing_table"
                       (Some 3) None) =
     Raise (ValueError "Table 'missing_table' not found in schema 'test_schema'") /\
   no_file_read
     (events (read_table Lake.env Lake.client "test_schema" "missing_table"
                         (Some 3) None))).
Proof.
  split.
  - split; [reflexivity |].
    destruct (read_table_not_found Lake.env Lake.client "missing_schema" "t"
                None None 3 eq_refl) as [Hschema _].
    apply Hschema. intros r [[<- | []] _]. discriminate.
  - split; [reflexivity |].
    destruct (read_table_not_found Lake.env Lake.client "test_schema"
                "missing_table" (Some 3) None 3 eq_refl) as [_ Htable].
    apply Htable.
    + eexists. split; [split; [left; reflexivity | reflexivity] | reflexivity].
    + intros r t _ _ [[<- | [<- | []]] _]; discriminate.
Defined.

Lemma resolve_path_cases_witness :
  _resolve_path Lake.env Lake.client "f1.parquet" true
                "deletes_table" "test_schema" = Ok Lake.f1_path /\
  _resolve_path Lake.env Lake.client_relative_root "f1.parquet" true
                "deletes_table" "test_schema" =
    Ok (absolute "/home/user"
          (of_string "data" // "test_schema" // "deletes_table" // "f1.parquet")) /\
  _resolve_path Lake.env Lake.client "/lake/f1.parquet" false
                "deletes_table" "test_schema" = Ok (of_string "/lake/f1.parquet") /\
  _resolve_path Lake.env Lake.client_no_root "f1.parquet" true
                "deletes_table" "test_schema" =
    Raise (ValueError "Relative path provided but no data_path configured").
Proof.
  split; [| split; [| split]].
  - destruct (resolve_path_cases Lake.env Lake.client "f1.parquet" true
                "deletes_table" "test_schema") as [H _].
    destruct (H (of_string "/data") eq_refl eq_refl) as [_ Habs].
    rewrite (Habs eq_refl). reflexivity.
  - destruct (resolve_path_cases Lake.env Lake.client_relative_root
                "f1.parquet" true "deletes_table" "test_schema") as [H _].
    destruct (H (of_string "data") eq_refl eq_refl) as [Hrel _].
    exact Hrel.
  - destruct (resolve_path_cases Lake.env Lake.client "/lake/f1.parquet" false
                "deletes_table" "test_schema") as [_ [H _]].
    destruct (H eq_refl) as [_ Habs]. exact (Habs eq_refl).
  - destruct (resolve_path_cases Lake.env Lake.client_no_root "f1.parquet" true
                "deletes_table" "test_schema") as [_ [_ [H _]]].
    exact (H eq_refl eq_refl).
Defined.

Lemma delete_path_resolved_with_data_file_flag_witness :
  In (Lake.f1_row, Some Lake.d1_row) (Query.data_files (engine Lake.client) 2 3) /\
  DuckLakeDataFile.path_is_relative Lake.f1_row = true /\
  DuckLakeDeleteFile.path_is_relative Lake.d1_row = false /\
  to_DataFile (Lake.f1_row, Some Lake.d1_row) = Lake.df1 /\
  events (read_data_file Lake.env Lake.client "deletes_table" "test_schema"
                         None (to_DataFile (Lake.f1_row, Some Lake.d1_row))) =
    [ ReadParquet "/data/test_schema/deletes_table/f1.parquet" None;
      ReadParquet "/data/test_schema/deletes_table/d1.parquet" None ].
Proof.
  assert (Hin : In (Lake.f1_row, Some Lake.d1_row)
                   (Query.data_files (engine Lake.client) 2 3)).
  { vm_compute. left. reflexivity. }
  split; [exact Hin |].
  split; [reflexivity |]. split; [reflexivity |]. split; [reflexivity |].
  destruct (delete_path_resolved_with_data_file_flag Lake.env Lake.client 2 3
              Lake.f1_row Lake.d1_row "deletes_table" "test_schema" None Hin)
    as [_ [_ [_ [Hread _]]]].
  destruct (Hread Lake.f1_path Lake.f1 eq_refl eq_refl eq_refl) as [q [Hq Hev]].
  vm_compute in Hq. injection Hq as <-. exact Hev.
Defined.

Lemma delete_positions_are_pos_column_witness :
  (files Lake.env (to_string Lake.d1_path) = Some Lake.d1 /\
   field_index "pos" (schema Lake.d1) = Some 1%nat /\
   outcome (_read_delete_row_ids Lake.env Lake.d1_path) = Ok [VInt 1; VInt 7])
  /\
  (files Lake.env_row_id (to_string Lake.d1_path) = Some Lake.d1_row_id /\
   outcome (_read_delete_row_ids Lake.env_row_id Lake.d1_path) =
     Raise (KeyError "pos") /\
   exists e,
     outcome (read_table Lake.env_row_id Lake.client "test_schema"
                         "deletes_table" None None) = Raise e).
Proof.
  split.
  - split; [reflexivity |]. split; [reflexivity |].
    destruct (delete_positions_are_pos_column Lake.env Lake.client
                Lake.d1_path Lake.d1 eq_refl) as [Hpos _].
    destruct (Hpos 1%nat eq_refl) as [Hids _]. exact Hids.
  - split; [reflexivity |].
    destruct (delete_positions_are_pos_column Lake.env_row_id Lake.client
                Lake.d1_path Lake.d1_row_id eq_refl) as [_ Hno].
    destruct Hno as [Herr Hall].
    { intros f [<- | []]. discriminate. }
    split; [exact Herr |].
    apply (Hall "test_schema" "deletes_table" None None 3 2 Lake.df1
                "d1.parquet").
    + reflexivity.
    + reflexivity.
    + vm_compute. left. reflexivity.
    + reflexivity.
    + reflexivity.
Defined.

(** * Further properties *)

(** ** The current snapshot *)

Lemma fold_left_max_spec l a :
  (fold_left Z.max l a = a \/ In (fold_left Z.max l a) l) /\
  a <= fold_left Z.max l a /\
  forall x, In x l -> x <= fold_left Z.max l a.
Proof.
  revert a. induction l as [| x l IH]; intros a; cbn [fold_left].
  - split; [now left |]. split; [lia | intros x []].
  - destruct (IH (Z.max a x)) as [Hin [Hle Hall]]. split; [| split].
    + destruct Hin as [Hm | Hm]; [| right; now right].
      rewrite Hm. destruct (Z.max_spec a x) as [[_ ->] | [_ ->]];
        [right; now left | now left].
    + lia.
    + intros y [<- | Hy]; [lia | now apply Hall].
Qed.

(** The current snapshot is the greatest snapshot id of the catalog. *)
Lemma current_snapshot_spec c s :
  Query.current_snapshot c = Some s <->
  In s (ducklake_snapshot c) /\ forall s', In s' (ducklake_snapshot c) -> s' <= s.
Proof.
  unfold Query.current_snapshot, Query.max_snapshot.
  destruct (ducklake_snapshot c) as [| a l] eqn:E.
  - split; [discriminate | intros [[] _]].
  - destruct (fold_left_max_spec l a) as [Hin [Hle Hall]].
    set (m := fold_left Z.max l a) in *.
    assert (Hmin : In m (a :: l)) by (destruct Hin as [-> | ?]; [left | right]; auto).
    assert (Hmax : forall x, In x (a :: l) -> x <= m).
    { intros x [<- | Hx]; [exact Hle | now apply Hall]. }
    assert (Hf : In m (filter (fun s0 => s0 =? m) (a :: l))).
    { apply filter_In. split; [exact Hmin | apply Z.eqb_refl]. }
    destruct (filter (fun s0 => s0 =? m) (a :: l)) as [| y ys] eqn:Ef;
      [destruct Hf |].
    assert (Hy : y = m).
    { assert (Hyin : In y (y :: ys)) by now left.
      rewrite <- Ef in Hyin. apply filter_In in Hyin. now apply Z.eqb_eq. }
    subst y. cbn [hd_error]. split.
    + intros [= <-]. auto.
    + intros [Hs Hs']. f_equal. apply Z.le_antisymm; [now apply Hs' | now apply Hmax].
Qed.

Lemma current_snapshot_none c :
  Query.current_snapshot c = None <-> ducklake_snapshot c = [].
Proof.
  split.
  - intros Hnone. destruct (ducklake_snapshot c) as [| a l] eqn:E; [reflexivity |].
    exfalso. destruct (fold_left_max_spec l a) as [Hin [Hle Hall]].
    assert (Hcur : Query.current_snapshot c = Some (fold_left Z.max l a)).
    { apply current_snapshot_spec. rewrite E. split.
      - destruct Hin as [-> | ?]; [left | right]; auto.
      - intros x [<- | Hx]; [exact Hle | now apply Hall]. }
    congruence.
  - intros E. unfold Query.current_snapshot, Query.max_snapshot. now rewrite E.
Qed.

(** X1: [get_current_snapshot_id] makes one query; it returns [s] exactly
    when [s] is a snapshot id of the catalog and no snapshot id is greater,
    and it raises the [ValueError] exactly when the catalog has no snapshot. *)
Theorem get_current_snapshot_id_is_latest self :
  events (get_current_snapshot_id self) = [QCurrentSnapshot] /\
  (forall s, outcome (get_current_snapshot_id self) = Ok s <->
             In s (ducklake_snapshot (engine self)) /\
             forall s', In s' (ducklake_snapshot (engine self)) -> s' <= s) /\
  (outcome (get_current_snapshot_id self) =
     Raise (ValueError "No snapshots found in the catalog") <->
   ducklake_snapshot (engine self) = []).
Proof.
  rewrite get_current_snapshot_id_run. cbn [events outcome fst snd].
  split; [reflexivity |]. split.
  - intros s. rewrite <- current_snapshot_spec.
    destruct (Query.current_snapshot (engine self)); split; congruence.
  - rewrite <- current_snapshot_none.
    destruct (Query.current_snapshot (engine self)); split; congruence.
Qed.

(** X2: on a catalog without snapshots every method called without a
    snapshot raises the [ValueError] of [get_current_snapshot_id], and the
    query for the current snapshot is the only thing it does. *)
Theorem no_snapshot_every_method_raises env self sid tid sn tn cols :
  ducklake_snapshot (engine self) = [] ->
  list_schemas self None = ([QCurrentSnapshot], Raise no_snapshots_error) /\
  list_tables self sid None = ([QCurrentSnapshot], Raise no_snapshots_error) /\
  get_table_columns self tid None =
    ([QCurrentSnapshot], Raise no_snapshots_error) /\
  get_data_files self tid None =
    ([QCurrentSnapshot], Raise no_snapshots_error) /\
  _read_table env self tid tn sn None cols =
    ([QCurrentSnapshot], Raise no_snapshots_error) /\
  read_table env self sn tn None cols =
    ([QCurrentSnapshot], Raise no_snapshots_error).
Proof.
  intros Hno. apply current_snapshot_none in Hno.
  unfold list_schemas, list_tables, get_table_columns, get_data_files,
    _read_table, read_table, no_snapshots_error.
  rewrite get_current_snapshot_id_run, Hno. repeat split.
Qed.

Lemma no_snapshot_every_method_raises_witness :
  ducklake_snapshot (engine Cases.client_no_snapshot) = [] /\
  read_table Lake.env Cases.client_no_snapshot "test_schema" "deletes_table"
             None None =
    ([QCurrentSnapshot], Raise no_snapshots_error).
Proof.
  split; [reflexivity |].
  apply (no_snapshot_every_method_raises Lake.env Cases.client_no_snapshot
           0 0 "test_schema" "deletes_table" None eq_refl).
Defined.

Lemma default_run {A} self (k : Z -> M A) S :
  Query.current_snapshot (engine self) = Some S ->
  bind (get_current_snapshot_id self) k =
  (QCurrentSnapshot :: events (k S), outcome (k S)).
Proof.
  intros Hcur. rewrite get_current_snapshot_id_run, Hcur. cbn [bind].
  destruct (k S). reflexivity.
Qed.

(** X3: called without a snapshot, a listing method asks for the current
    snapshot and then does what it does at the greatest snapshot id of the
    catalog. *)
Theorem listing_defaults_to_latest_snapshot self sid tid S :
  In S (ducklake_snapshot (engine self)) ->
  (forall s', In s' (ducklake_snapshot (engine self)) -> s' <= S) ->
  list_schemas self None =
    (QCurrentSnapshot :: events (list_schemas self (Some S)),
     outcome (list_schemas self (Some S))) /\
  list_tables self sid None =
    (QCurrentSnapshot :: events (list_tables self sid (Some S)),
     outcome (list_tables self sid (Some S))) /\
  get_table_columns self tid None =
    (QCurrentSnapshot :: events (get_table_columns self tid (Some S)),
     outcome (get_table_columns self tid (Some S))) /\
  get_data_files self tid None =
    (QCurrentSnapshot :: events (get_data_files self tid (Some S)),
     outcome (get_data_files self tid (Some S))).
Proof.
  intros Hin Hmax.
  assert (Hcur : Query.current_snapshot (engine self) = Some S)
    by (apply current_snapshot_spec; auto).
  unfold list_schemas, list_tables, get_table_columns, get_data_files.
  rewrite !(default_run self _ S Hcur), !bind_ret_l. repeat split.
Qed.

Lemma listing_defaults_to_latest_snapshot_witness :
  In 3 (ducklake_snapshot (engine Lake.client)) /\
  outcome (get_data_files Lake.client 2 None) =
    outcome (get_data_files Lake.client 2 (Some 3)) /\
  events (list_schemas Lake.client None) = [QCurrentSnapshot; QSchemas 3].
Proof.
  assert (Hin : In 3 (ducklake_snapshot (engine Lake.client)))
    by (cbn; tauto).
  assert (Hmax : forall s', In s' (ducklake_snapshot (engine Lake.client)) ->
                            s' <= 3).
  { cbn. intros s' [<- | [<- | [<- | [<- | []]]]]; lia. }
  destruct (listing_defaults_to_latest_snapshot Lake.client 1 2 3 Hin Hmax)
    as [Hs [_ [_ Hd]]].
  split; [exact Hin |]. split.
  - rewrite Hd. reflexivity.
  - rewrite Hs. reflexivity.
Defined.

(** ** Columns and data files *)

Lemma columns_In c tid S r :
  In r (Query.columns c tid S) <->
  In r (ducklake_column c) /\
  DuckLakeColumn.table_id r = tid /\
  DuckLakeColumn.parent_column r = None /\
  visible S (DuckLakeColumn.begin_snapshot r) (DuckLakeColumn.end_snapshot r) = true.
Proof.
  unfold Query.columns. rewrite order_by_In, filter_In, !andb_true_iff, Z.eqb_eq.
  unfold Query.is_null. destruct (DuckLakeColumn.parent_column r);
    intuition (discriminate || auto).
Qed.

Lemma get_table_columns_run self tid snapshot_id S :
  resolves_to self snapshot_id S ->
  outcome (get_table_columns self tid snapshot_id) =
  Ok (map (fun r => {| column_id := DuckLakeColumn.column_id r;
                       column_name := DuckLakeColumn.column_name r;
                       column_type := DuckLakeColumn.column_type r;
                       column_order := DuckLakeColumn.column_order r |})
          (Query.columns (engine self) tid S)).
Proof.
  unfold get_table_columns. destruct snapshot_id as [s |]; simpl.
  - intros ->. reflexivity.
  - intros Hcur. rewrite !outcome_bind, get_current_snapshot_id_run, Hcur.
    reflexivity.
Qed.

Lemma StronglySorted_map {A B} (f : A -> B) (R : B -> B -> Prop) l :
  StronglySorted (fun x y => R (f x) (f y)) l -> StronglySorted R (map f l).
Proof.
  induction 1 as [| x l Hs IH Hall]; cbn [map]; constructor; [exact IH |].
  apply Forall_map. exact Hall.
Qed.

(** X4: [get_table_columns] returns the columns in ascending
    [column_order]; they are the columns of the table that are visible at
    the snapshot and have no parent column, each as often as the catalog
    holds it: a nested column, a column of another table and a column not
    visible at the snapshot are never returned. *)
Theorem get_table_columns_sorted_top_level self tid snapshot_id S :
  resolves_to self snapshot_id S ->
  exists cols,
    outcome (get_table_columns self tid snapshot_id) = Ok cols /\
    StronglySorted (fun a b => column_order a <= column_order b) cols /\
    List.length cols =
      List.length
        (filter (fun r => (DuckLakeColumn.table_id r =? tid) &&
                          Query.is_null (DuckLakeColumn.parent_column r) &&
                          visible S (DuckLakeColumn.begin_snapshot r)
                                    (DuckLakeColumn.end_snapshot r))
                (ducklake_column (engine self))) /\
    (forall tc, In tc cols ->
       exists r,
         In r (ducklake_column (engine self)) /\
         DuckLakeColumn.table_id r = tid /\
         DuckLakeColumn.parent_column r = None /\
         visible S (DuckLakeColumn.begin_snapshot r)
                   (DuckLakeColumn.end_snapshot r) = true /\
         column_id tc = DuckLakeColumn.column_id r /\
         column_name tc = DuckLakeColumn.column_name r /\
         column_type tc = DuckLakeColumn.column_type r /\
         column_order tc = DuckLakeColumn.column_order r).
Proof.
  intros Hres. eexists.
  split; [exact (get_table_columns_run self tid snapshot_id S Hres) |].
  split; [| split].
  - apply StronglySorted_map. cbn [column_order].
    apply (order_by_sorted DuckLakeColumn.column_order).
  - rewrite length_map. unfold Query.columns.
    apply Permutation_length, order_by_perm.
  - intros tc Htc. apply in_map_iff in Htc. destruct Htc as [r [<- Hr]].
    apply columns_In in Hr. exists r. cbn. tauto.
Qed.

Lemma get_table_columns_sorted_top_level_witness :
  resolves_to Lake.client None 3 /\
  exists cols,
    outcome (get_table_columns Lake.client 3 None) = Ok cols /\
    map column_name cols = ["id"; "name"].
Proof.
  split; [reflexivity |].
  destruct (get_table_columns_sorted_top_level Lake.client 3 None 3 eq_refl)
    as [cols [Hcols _]].
  exists cols. split; [exact Hcols |].
  vm_compute in Hcols. injection Hcols as <-. reflexivity.
Defined.

(** X5: [get_data_files] misses nothing: every data file of the table
    that is visible at the snapshot is returned, with the path of each
    delete file that covers the snapshot and refers to it, and with no
    delete file path when there is none. *)
Theorem get_data_files_complete self tid snapshot_id S d :
  resolves_to self snapshot_id S ->
  data_file_visible (engine self) S tid d ->
  exists dfs,
    outcome (get_data_files self tid snapshot_id) = Ok dfs /\
    (exists df, In df dfs /\
                data_file_path df = DuckLakeDataFile.path d /\
                path_is_relative df = DuckLakeDataFile.path_is_relative d) /\
    (forall x,
       In x (ducklake_delete_file (engine self)) ->
       delete_file_covers S x ->
       DuckLakeDeleteFile.data_file_id x = DuckLakeDataFile.data_file_id d ->
       In {| data_file_path := DuckLakeDataFile.path d;
             delete_file_path := Some (DuckLakeDeleteFile.path x);
             path_is_relative := DuckLakeDataFile.path_is_relative d |} dfs) /\
    ((forall x,
        In x (ducklake_delete_file (engine self)) ->
        delete_file_covers S x ->
        DuckLakeDeleteFile.data_file_id x <> DuckLakeDataFile.data_file_id d) ->
     In {| data_file_path := DuckLakeDataFile.path d;
           delete_file_path := None;
           path_is_relative := DuckLakeDataFile.path_is_relative d |} dfs).
Proof.
  intros Hres Hd. eexists.
  split; [exact (get_data_files_run self tid snapshot_id S Hres) |].
  split; [| split].
  - apply data_files_fst, in_map_iff in Hd. destruct Hd as [j [<- Hj]].
    exists (to_DataFile j). split; [now apply in_map |]. split; reflexivity.
  - intros x Hx Hcov Hid.
    change {| data_file_path := DuckLakeDataFile.path d;
              delete_file_path := Some (DuckLakeDeleteFile.path x);
              path_is_relative := DuckLakeDataFile.path_is_relative d |}
      with (to_DataFile (d, Some x)).
    apply in_map. apply data_files_Some. auto.
  - intros Hnone.
    change {| data_file_path := DuckLakeDataFile.path d;
              delete_file_path := None;
              path_is_relative := DuckLakeDataFile.path_is_relative d |}
      with (to_DataFile (d, None)).
    apply in_map. apply data_files_None. auto.
Qed.

Lemma get_data_files_complete_witness :
  (resolves_to Lake.client (Some 3) 3 /\
   data_file_visible (engine Lake.client) 3 2 Lake.f1_row) /\
  exists dfs,
    outcome (get_data_files Lake.client 2 (Some 3)) = Ok dfs /\ In Lake.df1 dfs.
Proof.
  assert (Hvis : data_file_visible (engine Lake.client) 3 2 Lake.f1_row).
  { split; [right; left; reflexivity | split; reflexivity]. }
  split; [split; [reflexivity | exact Hvis] |].
  destruct (get_data_files_complete Lake.client 2 (Some 3) 3 Lake.f1_row
              eq_refl Hvis) as [dfs [Hdfs [_ [Hsome _]]]].
  exists dfs. split; [exact Hdfs |].
  apply (Hsome Lake.d1_row).
  - left. reflexivity.
  - split; [cbn; lia | exact I].
  - reflexivity.
Defined.

(** ** More on positional deletes *)

(** X6: deleting never adds a row and never changes the schema: in the
    table the filter yields, the rows that stay and the positions of the
    decoded table that the position list names add up to the rows of the
    decoded table. *)
Theorem apply_deletes_row_count D t out :
  apply_deletes D t = Ok out ->
  schema out = schema t /\
  Nat.add (num_rows out)
          (List.length (filter (fun i => py_in (Z.of_nat i) D)
                               (seq 0 (num_rows t))))
  = num_rows t /\
  Nat.le (num_rows out) (num_rows t).
Proof.
  intros Hout. apply apply_deletes_inv in Hout. destruct Hout as [_ ->].
  split; [reflexivity |].
  assert (Hsum :
            Nat.add (num_rows (without_deleted D t))
                    (List.length (filter (fun i => py_in (Z.of_nat i) D)
                                         (seq 0 (num_rows t))))
            = num_rows t).
  { unfold num_rows at 1. rewrite without_deleted_rows, length_map.
    rewrite Nat.add_comm.
    rewrite (filter_length (fun i => py_in (Z.of_nat i) D)).
    apply length_seq. }
  split; [exact Hsum |]. rewrite <- Hsum. apply Nat.le_add_r.
Qed.

Lemma apply_deletes_row_count_witness :
  apply_deletes [VInt 1; VInt 7] Lake.f1 =
    Ok (without_deleted [VInt 1; VInt 7] Lake.f1) /\
  schema (without_deleted [VInt 1; VInt 7] Lake.f1) = Lake.fields /\
  Nat.add (num_rows (without_deleted [VInt 1; VInt 7] Lake.f1)) 1 = 3%nat.
Proof.
  split; [reflexivity |].
  destruct (apply_deletes_row_count [VInt 1; VInt 7] Lake.f1
              (without_deleted [VInt 1; VInt 7] Lake.f1) eq_refl)
    as [Hschema [Hsum _]].
  split; [exact Hschema | exact Hsum].
Defined.

Lemma filter_rows_all {A} (l : list A) (mask : list bool) :
  List.length mask = List.length l -> Forall (fun b => b = true) mask ->
  filter_rows l mask = l.
Proof.
  revert mask. induction l as [| a l IH]; intros [| b mask]; try discriminate;
    [reflexivity |].
  cbn [List.length filter_rows]. intros [= Hlen] Hall.
  inversion Hall as [| ? ? -> Hall']; subst. now rewrite IH.
Qed.

Lemma filter_rows_none {A} (l : list A) (mask : list bool) :
  Forall (fun b => b = false) mask -> filter_rows l mask = [].
Proof.
  revert mask. induction l as [| a l IH]; intros [| b mask] Hall; try reflexivity.
  cbn [filter_rows]. inversion Hall as [| ? ? -> Hall']; subst. now apply IH.
Qed.

Lemma py_in_out_of_range n D i :
  (forall v, In v D -> in_range n v = false) ->
  0 <= i < Z.of_nat n -> py_in i D = false.
Proof.
  intros Hout Hi. rewrite <- (py_in_in_range n D i Hi).
  replace (filter (in_range n) D) with (@nil Value); [reflexivity |].
  symmetry. induction D as [| v D IH]; [reflexivity |].
  cbn [filter]. rewrite (Hout v) by now left.
  apply IH. intros w Hw. apply Hout. now right.
Qed.

(** X7: on a decoded table of at least one row, a position list that
    names no position of the table (an empty list, or only positions that
    are negative or past the last row) leaves the table as it is; a
    position list that names every position leaves no row and keeps the
    schema. *)
Theorem apply_deletes_nothing_or_everything D t :
  rows t <> [] ->
  ((forall v, In v D -> in_range (num_rows t) v = false) ->
   apply_deletes D t = Ok t) /\
  ((forall i, 0 <= i < Z.of_nat (num_rows t) -> py_in i D = true) ->
   apply_deletes D t = Ok (empty_table (schema t))).
Proof.
  intros Hrows. rewrite (apply_deletes_nonempty D t Hrows).
  split; intros H; f_equal; unfold without_deleted, empty_table.
  - destruct t as [sch rs]. cbn [schema rows num_rows]. f_equal.
    apply filter_rows_all.
    + unfold range. now rewrite !length_map, length_seq.
    + apply Forall_map. unfold range. apply Forall_map, Forall_forall.
      intros i Hi. apply in_seq in Hi.
      rewrite (py_in_out_of_range (num_rows {| schema := sch; rows := rs |}) D);
        [reflexivity | exact H |].
      unfold num_rows in *. cbn [rows] in *. lia.
  - f_equal. apply filter_rows_none.
    apply Forall_map. unfold range. apply Forall_map, Forall_forall.
    intros i Hi. apply in_seq in Hi. rewrite H; [reflexivity | lia].
Qed.

Lemma apply_deletes_nothing_or_everything_witness :
  rows Lake.f1 <> [] /\
  apply_deletes [VInt (-1); VInt 3; VNull; VStr "1"] Lake.f1 = Ok Lake.f1 /\
  apply_deletes [] Lake.f1 = Ok Lake.f1 /\
  apply_deletes [VInt 2; VInt 0; VInt 1; VInt 0] Lake.f1 =
    Ok (empty_table Lake.fields).
Proof.
  assert (Hrows : rows Lake.f1 <> []) by discriminate.
  split; [exact Hrows |]. split; [| split].
  - apply (apply_deletes_nothing_or_everything
             [VInt (-1); VInt 3; VNull; VStr "1"] Lake.f1 Hrows).
    intros v [<- | [<- | [<- | [<- | []]]]]; reflexivity.
  - apply (apply_deletes_nothing_or_everything [] Lake.f1 Hrows). intros v [].
  - apply (apply_deletes_nothing_or_everything
             [VInt 2; VInt 0; VInt 1; VInt 0] Lake.f1 Hrows).
    intros i Hi. cbn in Hi.
    assert (Hc : i = 0 \/ i = 1 \/ i = 2) by lia.
    destruct Hc as [-> | [-> | ->]]; reflexivity.
Defined.

(** X8: the position list is used as a set: two lists with the same
    elements, in whatever order and however often repeated, delete the same
    rows. *)
Theorem apply_deletes_same_elements D1 D2 t :
  (forall v, In v D1 <-> In v D2) ->
  apply_deletes D1 t = apply_deletes D2 t.
Proof.
  intros Hsame. apply apply_deletes_agree. intros i _. unfold py_in.
  apply eq_true_iff_eq. rewrite !existsb_exists.
  split; intros [v [Hv Hi]]; exists v; split; try exact Hi; now apply Hsame.
Qed.

Lemma apply_deletes_same_elements_witness :
  apply_deletes [VInt 2; VInt 0; VInt 2] Lake.f1 =
  apply_deletes [VInt 0; VInt 2] Lake.f1.
Proof.
  apply (apply_deletes_same_elements [VInt 2; VInt 0; VInt 2] [VInt 0; VInt 2]).
  intros v. cbn. tauto.
Defined.

(** ** The log of a read *)

Lemma run_eta {A} (m : M A) : m = (events m, outcome m).
Proof. destruct m. reflexivity. Qed.

(** Evaluates the log and the result of a computation along its binds. *)
Ltac run_binds :=
  repeat (first [rewrite events_bind | rewrite outcome_bind];
          cbn [events outcome ret emit lift fst snd app]).

Lemma read_table_run env self sn tn cols S sid tid :
  schema_id_of self sn S = Some sid ->
  table_id_of self sn tn S = Some tid ->
  read_table env self sn tn (Some S) cols =
  (QSchemas S :: QTables sid S ::
     events (_read_table env self tid tn sn (Some S) cols),
   outcome (_read_table env self tid tn sn (Some S) cols)).
Proof.
  intros Hsid Htid.
  rewrite (run_eta (read_table env self sn tn (Some S) cols)).
  rewrite (read_table_found env self sn tn cols S tid Htid). f_equal.
  unfold schema_id_of, table_id_of in *. rewrite Hsid in Htid.
  unfold read_table, list_schemas, list_tables.
  run_binds. rewrite Hsid. run_binds. rewrite Htid. reflexivity.
Qed.

Lemma _read_table_run env self tid tn sn S cols df dfs :
  map to_DataFile (Query.data_files (engine self) tid S) = df :: dfs ->
  events (_read_table env self tid tn sn (Some S) cols) =
  QDataFiles tid S :: events (read_data_files env self tn sn cols (df :: dfs)).
Proof.
  intros Hdfs. unfold _read_table, get_data_files.
  run_binds. rewrite Hdfs. run_binds.
  destruct (outcome (read_data_files env self tn sn cols (df :: dfs)))
    as [[| t [| t' ts]] | e]; cbn [events lift ret fst]; now rewrite ?app_nil_r.
Qed.

Lemma read_data_file_only_reads env self tn sn cols df :
  Forall (fun ev => is_file_read ev = true)
         (events (read_data_file env self tn sn cols df)) /\
  Nat.le (List.length (events (read_data_file env self tn sn cols df))) 2.
Proof.
  unfold read_data_file. rewrite events_bind. cbn [events lift fst outcome snd app].
  destruct (_resolve_path env self (data_file_path df) _ tn sn) as [p | e];
    [| split; [constructor | cbn; lia]].
  rewrite events_bind, pq_read_table_events_eq.
  destruct (outcome (pq_read_table env (to_string p) cols)) as [t | e];
    [| split; [repeat constructor | cbn; lia]].
  destruct (delete_path_truthy (delete_file_path df)) as [dfp |];
    [| split; [repeat constructor | cbn; lia]].
  rewrite events_bind. cbn [events lift fst outcome snd app].
  destruct (_resolve_path env self dfp _ tn sn) as [q | e];
    [| split; [repeat constructor | cbn; lia]].
  rewrite events_bind, _read_delete_row_ids_events.
  destruct (outcome (_read_delete_row_ids env q));
    split; repeat constructor.
Qed.

(** The loop up to its first failing turn. *)
Lemma read_data_files_stop env self tn sn cols pre df post ts e :
  Forall2 (fun d t => outcome (read_data_file env self tn sn cols d) = Ok t)
          pre ts ->
  outcome (read_data_file env self tn sn cols df) = Raise e ->
  read_data_files env self tn sn cols (pre ++ df :: post) =
  (file_reads env self tn sn cols pre ++
     events (read_data_file env self tn sn cols df),
   Raise e).
Proof.
  intros Hpre Hdf. induction Hpre as [| d t pre ts Hd _ IH].
  - cbn [app read_data_files file_reads flat_map].
    destruct (read_data_file env self tn sn cols df) as [l r]. cbn in Hdf.
    subst r. reflexivity.
  - cbn [app read_data_files file_reads flat_map]. rewrite IH.
    destruct (read_data_file env self tn sn cols d) as [l r]. cbn in Hd.
    subst r. cbn [bind events fst]. now rewrite app_assoc.
Qed.

(** The loop when every turn succeeds. *)
Lemma read_data_files_all env self tn sn cols dfs ts :
  Forall2 (fun d t => outcome (read_data_file env self tn sn cols d) = Ok t)
          dfs ts ->
  read_data_files env self tn sn cols dfs =
  (file_reads env self tn sn cols dfs, Ok ts).
Proof.
  induction 1 as [| d t dfs ts Hd _ IH]; [reflexivity |].
  cbn [read_data_files file_reads flat_map]. rewrite IH.
  destruct (read_data_file env self tn sn cols d) as [l r]. cbn in Hd.
  subst r. cbn [bind events fst ret]. now rewrite app_nil_r.
Qed.

Lemma read_data_files_log env self tn sn cols dfs :
  Forall (fun ev => is_file_read ev = true)
         (events (read_data_files env self tn sn cols dfs)) /\
  Nat.le (List.length (events (read_data_files env self tn sn cols dfs)))
         (2 * List.length dfs).
Proof.
  induction dfs as [| df dfs [IHall IHlen]]; [split; [constructor | cbn; lia] |].
  cbn [read_data_files]. rewrite events_bind.
  destruct (read_data_file_only_reads env self tn sn cols df) as [Hall Hlen].
  destruct (outcome (read_data_file env self tn sn cols df)) as [t | e].
  - rewrite events_bind.
    destruct (outcome (read_data_files env self tn sn cols dfs)) as [ts | e];
      cbn [events ret fst]; rewrite ?app_nil_r.
    + split; [apply Forall_app; auto |]. rewrite length_app. cbn [List.length]. lia.
    + split; [apply Forall_app; auto |]. rewrite length_app. cbn [List.length]. lia.
  - rewrite app_nil_r. split; [exact Hall |]. cbn [List.length]. lia.
Qed.

(** X9: for a table that has data files at the snapshot, a read at that
    snapshot queries the catalog three times (schemas, tables, data files),
    never the columns and never once per file; everything after that is
    Parquet reads, at most two for each row of the data-file query. *)
Theorem read_table_three_queries env self sn tn cols S sid tid :
  schema_id_of self sn S = Some sid ->
  table_id_of self sn tn S = Some tid ->
  Query.data_files (engine self) tid S <> [] ->
  exists reads,
    events (read_table env self sn tn (Some S) cols) =
      QSchemas S :: QTables sid S :: QDataFiles tid S :: reads /\
    Forall (fun ev => is_file_read ev = true) reads /\
    Nat.le (List.length reads)
           (2 * List.length (Query.data_files (engine self) tid S)).
Proof.
  intros Hsid Htid Hne.
  rewrite (read_table_run env self sn tn cols S sid tid Hsid Htid).
  cbn [events fst].
  destruct (map to_DataFile (Query.data_files (engine self) tid S))
    as [| df dfs] eqn:Hdfs.
  { destruct (Query.data_files (engine self) tid S); [easy | discriminate]. }
  rewrite (_read_table_run env self tid tn sn S cols df dfs Hdfs).
  eexists. split; [reflexivity |].
  destruct (read_data_files_log env self tn sn cols (df :: dfs)) as [Hall Hlen].
  split; [exact Hall |].
  replace (List.length (Query.data_files (engine self) tid S))
    with (List.length (df :: dfs)); [exact Hlen |].
  now rewrite <- Hdfs, length_map.
Qed.

Lemma read_table_three_queries_witness :
  (schema_id_of Lake.client "test_schema" 3 = Some 1 /\
   table_id_of Lake.client "test_schema" "deletes_table" 3 = Some 2 /\
   Query.data_files (engine Lake.client) 2 3 <> []) /\
  exists reads,
    events (read_table Lake.env Lake.client "test_schema" "deletes_table"
                       (Some 3) None) =
      QSchemas 3 :: QTables 1 3 :: QDataFiles 2 3 :: reads /\
    Nat.le (List.length reads) 4.
Proof.
  assert (H1 : schema_id_of Lake.client "test_schema" 3 = Some 1) by reflexivity.
  assert (H2 : table_id_of Lake.client "test_schema" "deletes_table" 3 = Some 2)
    by reflexivity.
  assert (H3 : Query.data_files (engine Lake.client) 2 3 <> [])
    by (vm_compute; discriminate).
  split; [repeat split; assumption |].
  destruct (read_table_three_queries Lake.env Lake.client "test_schema"
              "deletes_table" None 3 1 2 H1 H2 H3) as [reads [Hev [_ Hlen]]].
  exists reads. split; [exact Hev | exact Hlen].
Defined.

(** ** Failures *)

Lemma read_table_resolved_run env self sn tn snapshot_id cols S :
  resolves_to self snapshot_id S ->
  read_table env self sn tn snapshot_id cols =
  (resolution_events snapshot_id ++
     events (read_table env self sn tn (Some S) cols),
   outcome (read_table env self sn tn (Some S) cols)).
Proof.
  intros Hres. rewrite (run_eta (read_table env self sn tn snapshot_id cols)).
  destruct (read_table_resolved env self sn tn snapshot_id cols S Hres)
    as [-> ->].
  reflexivity.
Qed.

Lemma read_table_stop_run env self sn tn cols S sid tid pre df post ts e :
  schema_id_of self sn S = Some sid ->
  table_id_of self sn tn S = Some tid ->
  map to_DataFile (Query.data_files (engine self) tid S) = pre ++ df :: post ->
  Forall2 (fun d t => outcome (read_data_file env self tn sn cols d) = Ok t)
          pre ts ->
  outcome (read_data_file env self tn sn cols df) = Raise e ->
  read_table env self sn tn (Some S) cols =
  (QSchemas S :: QTables sid S :: QDataFiles tid S ::
     file_reads env self tn sn cols pre ++
     events (read_data_file env self tn sn cols df),
   Raise e).
Proof.
  intros Hsid Htid Hdfs Hpre Hdf.
  rewrite (read_table_run env self sn tn cols S sid tid Hsid Htid).
  pose proof (read_data_files_stop env self tn sn cols pre df post ts e
                Hpre Hdf) as Hstop.
  destruct (pre ++ df :: post) as [| d0 ds] eqn:Happ;
    [destruct pre; discriminate |].
  rewrite (_read_table_run env self tid tn sn S cols d0 ds Hdfs).
  rewrite _read_table_outcome, Hdfs, Hstop. reflexivity.
Qed.

(** X10: when a turn of the loop raises, [read_table] raises that exception
    and returns no table; the turns before it have run, and no file of a
    later turn is read. *)
Theorem read_table_stops_at_first_failure
    env self sn tn snapshot_id cols S sid tid pre df post ts e :
  resolves_to self snapshot_id S ->
  schema_id_of self sn S = Some sid ->
  table_id_of self sn tn S = Some tid ->
  map to_DataFile (Query.data_files (engine self) tid S) = pre ++ df :: post ->
  Forall2 (fun d t => outcome (read_data_file env self tn sn cols d) = Ok t)
          pre ts ->
  outcome (read_data_file env self tn sn cols df) = Raise e ->
  read_table env self sn tn snapshot_id cols =
  (resolution_events snapshot_id ++
     QSchemas S :: QTables sid S :: QDataFiles tid S ::
     file_reads env self tn sn cols pre ++
     events (read_data_file env self tn sn cols df),
   Raise e).
Proof.
  intros Hres Hsid Htid Hdfs Hpre Hdf.
  rewrite (read_table_resolved_run env self sn tn snapshot_id cols S Hres).
  now rewrite (read_table_stop_run env self sn tn cols S sid tid pre df post
                 ts e Hsid Htid Hdfs Hpre Hdf).
Qed.

Lemma read_table_stops_at_first_failure_witness :
  (resolves_to Lake.client None 3 /\
   schema_id_of Lake.client "test_schema" 3 = Some 1 /\
   table_id_of Lake.client "test_schema" "deletes_table" 3 = Some 2) /\
  read_table Cases.env_f2_missing Lake.client "test_schema" "deletes_table"
             None None =
    ([ QCurrentSnapshot; QSchemas 3; QTables 1 3; QDataFiles 2 3;
       ReadParquet "/data/test_schema/deletes_table/f1.parquet" None;
       ReadParquet "/data/test_schema/deletes_table/d1.parquet" None;
       ReadParquet "/data/test_schema/deletes_table/f2.parquet" None ],
     Raise (FileNotFoundError "/data/test_schema/deletes_table/f2.parquet")).
Proof.
  split; [repeat split; reflexivity |].
  assert (Hpre : Forall2
                   (fun d t =>
                      outcome (read_data_file Cases.env_f2_missing Lake.client
                                 "deletes_table" "test_schema" None d) = Ok t)
                   [Lake.df1] [without_deleted [VInt 1; VInt 7] Lake.f1]).
  { constructor; [reflexivity | constructor]. }
  rewrite (read_table_stops_at_first_failure Cases.env_f2_missing Lake.client
             "test_schema" "deletes_table" None None 3 1 2 [Lake.df1]
             {| data_file_path := "f2.parquet"; delete_file_path := None;
                path_is_relative := true |}
             [] [without_deleted [VInt 1; VInt 7] Lake.f1]
             (FileNotFoundError "/data/test_schema/deletes_table/f2.parquet")
             eq_refl eq_refl eq_refl eq_refl Hpre eq_refl).
  reflexivity.
Defined.

(** X11: a client without a data root cannot read a table whose first data
    file has a relative path: [read_table] raises the [ValueError] of
    [_resolve_path] after the catalog queries and reads no file.  A client
    made with the empty string as data root is such a client. *)
Theorem read_table_without_data_root
    env self sn tn snapshot_id cols S sid tid df dfs :
  data_path self = None ->
  resolves_to self snapshot_id S ->
  schema_id_of self sn S = Some sid ->
  table_id_of self sn tn S = Some tid ->
  map to_DataFile (Query.data_files (engine self) tid S) = df :: dfs ->
  path_is_relative df = true ->
  read_table env self sn tn snapshot_id cols =
  (resolution_events snapshot_id ++
     [QSchemas S; QTables sid S; QDataFiles tid S],
   Raise (ValueError "Relative path provided but no data_path configured")) /\
  forall c, data_path (init c (Some "")) = None.
Proof.
  intros Hroot Hres Hsid Htid Hdfs Hrel. split; [| reflexivity].
  assert (Hdf : read_data_file env self tn sn cols df =
                ([], Raise (ValueError
                              "Relative path provided but no data_path configured"))).
  { unfold read_data_file, _resolve_path. rewrite Hrel, Hroot. reflexivity. }
  rewrite (read_table_resolved_run env self sn tn snapshot_id cols S Hres).
  rewrite (read_table_stop_run env self sn tn cols S sid tid
             [] df dfs [] _ Hsid Htid Hdfs (Forall2_nil _)
             (f_equal outcome Hdf)).
  rewrite Hdf. reflexivity.
Qed.

Lemma read_table_without_data_root_witness :
  (data_path Lake.client_no_root = None /\
   resolves_to Lake.client_no_root (Some 3) 3) /\
  read_table Lake.env Lake.client_no_root "test_schema" "deletes_table"
             (Some 3) None =
    ([QSchemas 3; QTables 1 3; QDataFiles 2 3],
     Raise (ValueError "Relative path provided but no data_path configured")).
Proof.
  split; [split; reflexivity |].
  destruct (read_table_without_data_root Lake.env Lake.client_no_root
              "test_schema" "deletes_table" (Some 3) None 3 1 2 Lake.df1
              [ {| data_file_path := "f2.parquet"; delete_file_path := None;
                   path_is_relative := true |} ]
              eq_refl eq_refl eq_refl eq_refl eq_refl eq_refl) as [H _].
  exact H.
Defined.

(** ** More on path resolution *)

Lemma is_absolute_of_string s :
  is_absolute (of_string s) = true <-> exists rest, s = String "/" rest.
Proof.
  unfold is_absolute, of_string. cbn [root]. split.
  - destruct s as [| c s]; [discriminate |].
    destruct (Ascii.eqb_spec c "/") as [-> | Hne]; [eauto |].
    unfold parse_root.
    destruct c as [[] [] [] [] [] [] [] []]; try discriminate;
      exfalso; now apply Hne.
  - intros [rest ->]. destruct rest as [| c [| c' rest]]; try reflexivity.
    + destruct c as [[] [] [] [] [] [] [] []]; reflexivity.
    + destruct c as [[] [] [] [] [] [] [] []];
        destruct c' as [[] [] [] [] [] [] [] []]; reflexivity.
Qed.

(** X12: in a process whose working directory is an absolute path, every
    path [_resolve_path] returns is absolute. *)
Theorem resolved_path_is_absolute env self path is_relative tn sn p :
  is_absolute (of_string (cwd env)) = true ->
  _resolve_path env self path is_relative tn sn = Ok p ->
  is_absolute p = true.
Proof.
  intros Hcwd. unfold _resolve_path.
  assert (Habs : forall q, is_absolute (absolute (cwd env) q) = true).
  { intros q. unfold absolute. destruct (is_absolute q) eqn:Hq; [exact Hq |].
    now apply is_absolute_join. }
  destruct is_relative; [destruct (data_path self); [| discriminate] |];
    intros [= <-]; apply Habs.
Qed.

Lemma resolved_path_is_absolute_witness :
  is_absolute (of_string (cwd Lake.env)) = true /\
  (exists p,
     _resolve_path Lake.env Lake.client_relative_root "f1.parquet" true
                   "deletes_table" "test_schema" = Ok p /\
     is_absolute p = true).
Proof.
  split; [reflexivity |]. eexists. split; [reflexivity |].
  apply (resolved_path_is_absolute Lake.env Lake.client_relative_root
           "f1.parquet" true "deletes_table" "test_schema" _ eq_refl eq_refl).
Defined.

(** X13: a stored path that begins with a slash resolves to itself:
    flagged as relative or not, it is not put under the data root, the
    schema and the table, and the working directory plays no part.  Only
    the check for a data root comes first. *)
Theorem slash_path_escapes_data_root env self rest is_relative tn sn :
  _resolve_path env self (String "/" rest) is_relative tn sn =
  match is_relative, data_path self with
  | true, None =>
      Raise (ValueError "Relative path provided but no data_path configured")
  | _, _ => Ok (of_string (String "/" rest))
  end.
Proof.
  assert (Habs : is_absolute (of_string (String "/" rest)) = true)
    by (apply is_absolute_of_string; eauto).
  unfold _resolve_path.
  destruct is_relative; [destruct (data_path self) as [dp |]; [| reflexivity] |].
  - f_equal. unfold div at 1. unfold join at 1. rewrite Habs.
    now apply absolute_of_absolute.
  - f_equal. now apply absolute_of_absolute.
Qed.

(** ** Tables without data files, projections, tables without deletes *)

(** X14: a table without data files, read without a projection ([None] or
    the empty list), gives a table without rows whose fields are the
    visible top-level columns of the catalog in column order, every one of
    them typed [string] whatever type the catalog records. *)
Theorem read_table_empty_schema env self sn tn snapshot_id cols S tid :
  resolves_to self snapshot_id S ->
  table_id_of self sn tn S = Some tid ->
  (forall d, ~ data_file_visible (engine self) S tid d) ->
  columns_truthy cols = false ->
  exists t,
    outcome (read_table env self sn tn snapshot_id cols) = Ok t /\
    rows t = [] /\
    map f_name (schema t) =
      map DuckLakeColumn.column_name (Query.columns (engine self) tid S) /\
    Forall (fun f => f_type f = "string") (schema t).
Proof.
  intros Hres Htid Hno Hcols.
  rewrite (read_table_no_data_files env self sn tn snapshot_id cols S tid
             Hres Htid Hno), Hcols.
  eexists. split; [reflexivity |]. cbn [empty_table rows schema].
  split; [reflexivity |]. split.
  - now rewrite map_map.
  - apply Forall_map, Forall_forall. reflexivity.
Qed.

Lemma read_table_empty_schema_witness :
  (resolves_to Lake.client None 3 /\
   table_id_of Lake.client "test_schema" "empty_table" 3 = Some 3 /\
   columns_truthy (Some []) = false) /\
  exists t,
    outcome (read_table Lake.env Lake.client "test_schema" "empty_table"
                        None (Some [])) = Ok t /\
    rows t = [] /\
    map f_name (schema t) = ["id"; "name"] /\
    map f_type (schema t) = ["string"; "string"].
Proof.
  split; [repeat split; reflexivity |].
  destruct (read_table_empty_schema Lake.env Lake.client "test_schema"
              "empty_table" None (Some []) 3 3 eq_refl eq_refl)
    as [t [Ht [Hrows [Hnames _]]]].
  - intros d [[<- | [<- | []]] [Htid _]]; discriminate.
  - reflexivity.
  - exists t. split; [exact Ht |]. split; [exact Hrows |].
    vm_compute in Ht. injection Ht as <-. split; reflexivity.
Defined.

(** X15: projection pushdown.  For a table with data files, when the read
    without a projection returns [t], at least one name is asked for and
    every name asked for is the name of exactly one column of [t], the read
    with the projection returns the columns asked for, in the order asked
    for, with the rows of [t] in their order. *)
Theorem projection_pushdown env self sn tn snapshot_id S tid names idxs t :
  resolves_to self snapshot_id S ->
  table_id_of self sn tn S = Some tid ->
  Query.data_files (engine self) tid S <> [] ->
  names <> [] ->
  outcome (read_table env self sn tn snapshot_id None) = Ok t ->
  field_indices names (schema t) = Some idxs ->
  exists t',
    outcome (read_table env self sn tn snapshot_id (Some names)) = Ok t' /\
    map f_name (schema t') = names /\
    rows t' = map (fun r => map (cell r) idxs) (rows t) /\
    num_rows t' = num_rows t.
Proof.
  intros Hres Htid Hne Hnames Ht Hidx.
  exists (take_columns idxs t). split; [| split; [| split]].
  - now apply (read_table_projection env self sn tn snapshot_id S tid).
  - now apply take_columns_names.
  - reflexivity.
  - unfold num_rows, take_columns. cbn [rows]. apply length_map.
Qed.

Lemma projection_pushdown_witness :
  (resolves_to Lake.client None 3 /\
   table_id_of Lake.client "test_schema" "deletes_table" 3 = Some 2 /\
   Query.data_files (engine Lake.client) 2 3 <> [] /\
   ["name"; "id"] <> []) /\
  exists t',
    outcome (read_table Lake.env Lake.client "test_schema" "deletes_table"
                        None (Some ["name"; "id"])) = Ok t' /\
    map f_name (schema t') = ["name"; "id"] /\
    rows t' = [ [VStr "Alice"; VInt 1]; [VStr "Charlie"; VInt 3];
                [VStr "Dave"; VInt 4] ].
Proof.
  assert (H3 : Query.data_files (engine Lake.client) 2 3 <> [])
    by (vm_compute; discriminate).
  assert (H4 : ["name"; "id"] <> []) by discriminate.
  split; [split; [reflexivity | split; [reflexivity | split; assumption]] |].
  destruct (projection_pushdown Lake.env Lake.client "test_schema"
              "deletes_table" None 3 2 ["name"; "id"] [1%nat; 0%nat]
              {| schema := Lake.fields;
                 rows := [ [VInt 1; VStr "Alice"]; [VInt 3; VStr "Charlie"];
                           [VInt 4; VStr "Dave"] ] |}
              eq_refl eq_refl H3 H4 eq_refl eq_refl)
    as [t' [Ht' [Hnames [Hrows _]]]].
  exists t'. split; [exact Ht' |]. split; [exact Hnames |].
  rewrite Hrows. reflexivity.
Defined.

(** X16: the empty projection.  For a table with data files, when the read
    without a projection returns [t], the read with [columns = []] returns
    a table without columns: with as many rows as [t] when the data-file
    query has one row, and without any row when it has several (whereas for
    a table without data files the empty list is taken for no projection at
    all). *)
Theorem read_table_empty_projection env self sn tn snapshot_id S tid t :
  resolves_to self snapshot_id S ->
  table_id_of self sn tn S = Some tid ->
  Query.data_files (engine self) tid S <> [] ->
  outcome (read_table env self sn tn snapshot_id None) = Ok t ->
  outcome (read_table env self sn tn snapshot_id (Some [])) =
    Ok {| schema := [];
          rows := match Query.data_files (engine self) tid S with
                  | [_] => map (fun _ => []) (rows t)
                  | _ => []
                  end |}.
Proof.
  intros Hres Htid Hne.
  destruct (read_table_resolved env self sn tn snapshot_id None S Hres)
    as [-> _].
  destruct (read_table_resolved env self sn tn snapshot_id (Some []) S Hres)
    as [-> _].
  rewrite !(read_table_found _ _ _ _ _ _ _ Htid), !_read_table_outcome.
  destruct (Query.data_files (engine self) tid S) as [| j js]; [easy |].
  cbn [map].
  destruct (outcome (read_data_files env self tn sn None
                       (to_DataFile j :: map to_DataFile js)))
    as [ts | e] eqn:Hts; [| discriminate].
  pose proof (read_data_files_inv _ _ _ _ _ _ _ Hts) as Hall.
  destruct ts as [| t1 [| t2 ts]].
  - inversion Hall.
  - intros [= <-].
    rewrite (read_data_files_projected env self tn sn [] [] (schema t1)
               _ _ Hts); [| intros u [<- | []]; reflexivity | reflexivity].
    inversion Hall as [| ? ? ? ? _ Hrest]; subst.
    destruct js; [reflexivity | inversion Hrest].
  - intros Hcat. apply concat_tables_inv in Hcat. destruct Hcat as [Hsch _].
    rewrite (read_data_files_projected env self tn sn [] [] (schema t1)
               _ _ Hts);
      [| intros u [<- | Hu]; [reflexivity | now apply Hsch] | reflexivity].
    cbn [map]. rewrite concat_tables_no_columns.
    + inversion Hall as [| ? ? ? ? _ Hrest]; subst.
      destruct js; [inversion Hrest | reflexivity].
    + intros u Hu.
      change (In u (map (take_columns []) (t2 :: ts))) in Hu.
      apply in_map_iff in Hu. now destruct Hu as [v [<- _]].
    + reflexivity.
Qed.

Lemma read_table_empty_projection_witness :
  (resolves_to Lake.client None 3 /\
   table_id_of Lake.client "test_schema" "deletes_table" 3 = Some 2 /\
   Query.data_files (engine Lake.client) 2 3 <> []) /\
  outcome (read_table Lake.env Lake.client "test_schema" "deletes_table"
                      None (Some [])) =
    Ok {| schema := []; rows := [] |} /\
  (resolves_to Cases.client_one_file (Some 2) 2 /\
   table_id_of Cases.client_one_file "test_schema" "deletes_table" 2
     = Some 2 /\
   Query.data_files (engine Cases.client_one_file) 2 2 <> []) /\
  outcome (read_table Lake.env Cases.client_one_file "test_schema"
                      "deletes_table" (Some 2) (Some [])) =
    Ok {| schema := []; rows := [ []; []; [] ] |}.
Proof.
  assert (H3 : Query.data_files (engine Lake.client) 2 3 <> [])
    by (vm_compute; discriminate).
  assert (H3' : Query.data_files (engine Cases.client_one_file) 2 2 <> [])
    by (vm_compute; discriminate).
  split; [repeat split; (reflexivity || exact H3) |]. split; [| split].
  - rewrite (read_table_empty_projection Lake.env Lake.client "test_schema"
               "deletes_table" None 3 2
               {| schema := Lake.fields;
                  rows := [ [VInt 1; VStr "Alice"]; [VInt 3; VStr "Charlie"];
                            [VInt 4; VStr "Dave"] ] |}
               eq_refl eq_refl H3 eq_refl).
    reflexivity.
  - repeat split; (reflexivity || exact H3').
  - rewrite (read_table_empty_projection Lake.env Cases.client_one_file
               "test_schema" "deletes_table" (Some 2) 2 2 Lake.f1
               eq_refl eq_refl H3' eq_refl).
    reflexivity.
Defined.

Lemma left_join_filter (P : DuckLakeDataFile.row -> bool) data del :
  filter (fun j => P (fst j)) (Query.left_join data del) =
  Query.left_join (filter P data) del.
Proof.
  unfold Query.left_join. induction data as [| d data IH]; [reflexivity |].
  cbn [flat_map filter]. rewrite filter_app, IH.
  set (block := match filter (fun x => DuckLakeDataFile.data_file_id d =?
                                       DuckLakeDeleteFile.data_file_id x) del with
                | [] => [(d, None)]
                | m :: ms => map (fun x => (d, Some x)) (m :: ms)
                end).
  assert (Hblock : Forall (fun j => fst j = d) block).
  { unfold block. destruct (filter _ del) as [| m ms]; [repeat constructor |].
    apply Forall_map, Forall_forall. reflexivity. }
  assert (Hf : filter (fun j => P (fst j)) block = if P d then block else []).
  { clear -Hblock. induction Hblock as [| j l Hj _ IHl]; cbn [filter].
    - now destruct (P d).
    - rewrite Hj, IHl. now destruct (P d). }
  rewrite Hf. destruct (P d); reflexivity.
Qed.

Lemma left_join_no_match data del :
  (forall d x, In d data -> In x del ->
               DuckLakeDeleteFile.data_file_id x <> DuckLakeDataFile.data_file_id d) ->
  Query.left_join data del = map (fun d => (d, None)) data.
Proof.
  unfold Query.left_join. induction data as [| d data IH]; intros H;
    [reflexivity |].
  cbn [flat_map]. rewrite IH by (intros d' x Hd'; apply H; now right).
  destruct (filter _ del) as [| m ms] eqn:Hf; [reflexivity |].
  exfalso. assert (Hm : In m (m :: ms)) by now left.
  rewrite <- Hf in Hm. apply filter_In in Hm. destruct Hm as [Hm Hid].
  apply Z.eqb_eq in Hid. apply (H d m); [now left | exact Hm | now symmetry].
Qed.

(** The data-file query with its WHERE clause applied before the join. *)
Lemma data_files_filter_first c tid S :
  Query.data_files c tid S =
  order_by (fun j => DuckLakeDataFile.file_order (fst j))
    (Query.left_join
       (filter (fun d => (DuckLakeDataFile.table_id d =? tid) &&
                         visible S (DuckLakeDataFile.begin_snapshot d)
                                   (DuckLakeDataFile.end_snapshot d))
               (ducklake_data_file c))
       (Query.del c S)).
Proof.
  unfold Query.data_files. f_equal.
  apply (left_join_filter
           (fun d => (DuckLakeDataFile.table_id d =? tid) &&
                     visible S (DuckLakeDataFile.begin_snapshot d)
                               (DuckLakeDataFile.end_snapshot d))).
Qed.

Lemma data_files_no_deletes c tid S :
  (forall d x, In d (visible_data_files c tid S) ->
               In x (ducklake_delete_file c) -> delete_file_covers S x ->
               DuckLakeDeleteFile.data_file_id x <> DuckLakeDataFile.data_file_id d) ->
  Query.data_files c tid S = map (fun d => (d, None)) (visible_data_files c tid S).
Proof.
  intros Hno. rewrite data_files_filter_first. unfold visible_data_files in *.
  rewrite left_join_no_match.
  - apply (order_by_map DuckLakeDataFile.file_order
                        (fun j => DuckLakeDataFile.file_order (fst j))
                        (fun d => (d, None))).
    reflexivity.
  - intros d x Hd Hx. unfold Query.del in Hx. apply filter_In in Hx.
    destruct Hx as [Hx Hcov]. apply Hno; [| exact Hx |].
    + apply order_by_In. exact Hd.
    + now apply visible_delete_covers.
Qed.

(** What [read_table] returns when every turn of the loop succeeds. *)
Lemma read_table_concat env self sn tn snapshot_id cols S tid df dfs ts :
  resolves_to self snapshot_id S ->
  table_id_of self sn tn S = Some tid ->
  map to_DataFile (Query.data_files (engine self) tid S) = df :: dfs ->
  Forall2 (fun d t => outcome (read_data_file env self tn sn cols d) = Ok t)
          (df :: dfs) ts ->
  (forall t t', In t ts -> In t' ts -> schema t = schema t') ->
  (List.length ts = 1%nat \/ forall t, In t ts -> schema t <> []) ->
  exists t,
    outcome (read_table env self sn tn snapshot_id cols) = Ok t /\
    rows t = List.concat (map rows ts).
Proof.
  intros Hres Htid Hdfs Hread Hschema Hcols.
  destruct (read_table_resolved env self sn tn snapshot_id cols S Hres)
    as [-> _].
  rewrite (read_table_found _ _ _ _ _ _ _ Htid), _read_table_outcome, Hdfs.
  rewrite (read_data_files_ok _ _ _ _ _ _ _ Hread).
  destruct ts as [| t [| t' ts]].
  - inversion Hread.
  - exists t. split; [reflexivity |]. cbn. now rewrite app_nil_r.
  - rewrite concat_tables_columns.
    + eexists. split; reflexivity.
    + intros u Hu. apply Hschema; [now right | now left].
    + destruct Hcols as [Hlen | Hcols]; [discriminate Hlen |].
      apply Hcols. now left.
Qed.

(** X17: nothing is lost without deletes.  When no delete file that covers
    the snapshot refers to a visible data file of the table, each of these
    data files decodes, and there is one such file or the tables they
    decode to have at least one column, [read_table] returns every row of
    every file: the rows of the first file in file order, then those of the
    second, and so on. *)
Theorem read_table_without_deletes
    env self sn tn snapshot_id cols S tid ts :
  resolves_to self snapshot_id S ->
  table_id_of self sn tn S = Some tid ->
  visible_data_files (engine self) tid S <> [] ->
  (forall d x, In d (visible_data_files (engine self) tid S) ->
               In x (ducklake_delete_file (engine self)) ->
               delete_file_covers S x ->
               DuckLakeDeleteFile.data_file_id x <> DuckLakeDataFile.data_file_id d) ->
  Forall2 (fun d t =>
             exists p,
               _resolve_path env self (DuckLakeDataFile.path d)
                             (DuckLakeDataFile.path_is_relative d) tn sn = Ok p /\
               outcome (pq_read_table env (to_string p) cols) = Ok t)
          (visible_data_files (engine self) tid S) ts ->
  (forall t t', In t ts -> In t' ts -> schema t = schema t') ->
  (List.length ts = 1%nat \/ forall t, In t ts -> schema t <> []) ->
  exists t,
    outcome (read_table env self sn tn snapshot_id cols) = Ok t /\
    rows t = List.concat (map rows ts) /\
    num_rows t = list_sum (map num_rows ts).
Proof.
  intros Hres Htid Hne Hno Hread Hschema Hcols.
  pose proof (data_files_no_deletes (engine self) tid S Hno) as Hq.
  assert (Hdfs : map to_DataFile (Query.data_files (engine self) tid S) =
                 map (fun d => to_DataFile (d, None))
                     (visible_data_files (engine self) tid S)).
  { now rewrite Hq, map_map. }
  assert (Hok : Forall2
                  (fun d t => outcome (read_data_file env self tn sn cols d) = Ok t)
                  (map (fun d => to_DataFile (d, None))
                       (visible_data_files (engine self) tid S)) ts).
  { clear -Hread. induction Hread as [| d t ds ts [p [Hp Ht]] _ IH];
      cbn [map]; constructor; [| exact IH].
    rewrite read_data_file_outcome.
    cbn [to_DataFile data_file_path path_is_relative delete_file_path
           fst snd option_map delete_path_truthy].
    now rewrite Hp, Ht. }
  destruct (map (fun d => to_DataFile (d, None))
                (visible_data_files (engine self) tid S)) as [| df dfs] eqn:E.
  { destruct (visible_data_files (engine self) tid S); [easy | discriminate]. }
  destruct (read_table_concat env self sn tn snapshot_id cols S tid df dfs ts
              Hres Htid Hdfs Hok Hschema Hcols) as [t [Ht Hrows]].
  exists t. split; [exact Ht |]. split; [exact Hrows |].
  unfold num_rows at 1. rewrite Hrows. clear.
  induction ts as [| u ts IH]; [reflexivity |].
  cbn [map List.concat list_sum]. now rewrite length_app, IH.
Qed.

Lemma read_table_without_deletes_witness :
  (resolves_to Lake.client (Some 2) 2 /\
   table_id_of Lake.client "test_schema" "deletes_table" 2 = Some 2 /\
   visible_data_files (engine Lake.client) 2 2 <> []) /\
  exists t,
    outcome (read_table Lake.env Lake.client "test_schema" "deletes_table"
                        (Some 2) None) = Ok t /\
    rows t = [ [VInt 1; VStr "Alice"]; [VInt 2; VStr "Bob"];
               [VInt 3; VStr "Charlie"]; [VInt 4; VStr "Dave"] ] /\
    num_rows t = 4%nat.
Proof.
  assert (H3 : visible_data_files (engine Lake.client) 2 2 <> [])
    by (vm_compute; discriminate).
  split; [repeat split; (reflexivity || exact H3) |].
  destruct (read_table_without_deletes Lake.env Lake.client "test_schema"
              "deletes_table" (Some 2) None 2 2 [Lake.f1; Lake.f2]
              eq_refl eq_refl H3) as [t [Ht [Hrows Hnum]]].
  - intros d x _ [<- | []] [Hb _]. cbn in Hb. lia.
  - vm_compute. constructor; [| constructor; [| constructor]];
      eexists; split; reflexivity.
  - intros t t' [<- | [<- | []]] [<- | [<- | []]]; reflexivity.
  - right. intros t [<- | [<- | []]]; discriminate.
  - exists t. split; [exact Ht |]. split; [rewrite Hrows | rewrite Hnum];
      reflexivity.
Defined.

(** ** Reads at a snapshot and later writes *)

Lemma filter_later {A} (vis : A -> bool) (f : A -> A) (l extra : list A) :
  (forall r, vis (f r) = vis r) ->
  Forall (fun r => vis r = false) extra ->
  filter vis (map f l ++ extra) = map f (filter vis l).
Proof.
  intros Hf Hextra. rewrite filter_app, filter_map_comm.
  replace (filter vis extra) with (@nil A).
  - rewrite app_nil_r. f_equal. apply filter_ext. exact Hf.
  - symmetry. induction Hextra as [| r extra Hr _ IH]; [reflexivity |].
    cbn [filter]. now rewrite Hr.
Qed.

Lemma visible_ended S b e : S < e -> visible S b (Some e) = visible S b None.
Proof.
  intros He. unfold visible. f_equal. now apply Z.ltb_lt.
Qed.

Lemma visible_not_yet S b e : S < b -> visible S b e = false.
Proof.
  intros Hb. unfold visible.
  replace (S >=? b) with false; [reflexivity |].
  symmetry. rewrite Z.geb_leb. apply Z.leb_gt. exact Hb.
Qed.

(** Ending a row at a snapshot after [S] does not change whether it is
    visible at [S]. *)
Ltac retire_visible He Hend :=
  cbn; rewrite ?Hend; try reflexivity;
  first [apply visible_ended | f_equal; apply visible_ended];
  eapply He; eassumption.

Section LaterWrites.

Variable S : Z.
Variable w : Later.Writes.
Hypothesis Hafter : Later.after S w.
Variable c : Catalog.

Lemma schemas_later :
  map (fun r => (DuckLakeSchema.schema_id r, DuckLakeSchema.schema_name r))
      (Query.schemas (Later.apply w c) S) =
  map (fun r => (DuckLakeSchema.schema_id r, DuckLakeSchema.schema_name r))
      (Query.schemas c S).
Proof.
  destruct Hafter as [He [_ [_ [_ [_ [Hn _]]]]]].
  unfold Query.schemas. cbn [Later.apply ducklake_schema].
  rewrite filter_later.
  - rewrite map_map. apply map_ext. intros r. unfold Later.retire_schema.
    destruct (DuckLakeSchema.end_snapshot r), (Later.ended_schema w r);
      reflexivity.
  - intros r. unfold Later.retire_schema.
    destruct (DuckLakeSchema.end_snapshot r) eqn:Hend;
      destruct (Later.ended_schema w r) eqn:Hw; retire_visible He Hend.
  - eapply Forall_impl; [| exact Hn]. intros r Hr. now apply visible_not_yet.
Qed.

Lemma tables_later sid :
  map (fun r => (DuckLakeTable.table_id r, DuckLakeTable.table_name r))
      (Query.tables (Later.apply w c) sid S) =
  map (fun r => (DuckLakeTable.table_id r, DuckLakeTable.table_name r))
      (Query.tables c sid S).
Proof.
  destruct Hafter as [_ [He [_ [_ [_ [_ [Hn _]]]]]]].
  unfold Query.tables. cbn [Later.apply ducklake_table].
  rewrite filter_later.
  - rewrite map_map. apply map_ext. intros r. unfold Later.retire_table.
    destruct (DuckLakeTable.end_snapshot r), (Later.ended_table w r);
      reflexivity.
  - intros r. unfold Later.retire_table.
    destruct (DuckLakeTable.end_snapshot r) eqn:Hend;
      destruct (Later.ended_table w r) eqn:Hw; retire_visible He Hend.
  - eapply Forall_impl; [| exact Hn]. intros r Hr. cbn beta.
    rewrite visible_not_yet by exact Hr. apply andb_false_r.
Qed.

Lemma columns_later tid :
  map (fun r => {| column_id := DuckLakeColumn.column_id r;
                   column_name := DuckLakeColumn.column_name r;
                   column_type := DuckLakeColumn.column_type r;
                   column_order := DuckLakeColumn.column_order r |})
      (Query.columns (Later.apply w c) tid S) =
  map (fun r => {| column_id := DuckLakeColumn.column_id r;
                   column_name := DuckLakeColumn.column_name r;
                   column_type := DuckLakeColumn.column_type r;
                   column_order := DuckLakeColumn.column_order r |})
      (Query.columns c tid S).
Proof.
  destruct Hafter as [_ [_ [He [_ [_ [_ [_ [Hn _]]]]]]]].
  unfold Query.columns. cbn [Later.apply ducklake_column].
  rewrite filter_later.
  - rewrite (order_by_map DuckLakeColumn.column_order DuckLakeColumn.column_order
               (fun r => Later.retire_column (Later.ended_column w r) r)).
    + rewrite map_map. apply map_ext. intros r. unfold Later.retire_column.
      destruct (DuckLakeColumn.end_snapshot r), (Later.ended_column w r);
        reflexivity.
    + intros r. unfold Later.retire_column.
      destruct (DuckLakeColumn.end_snapshot r), (Later.ended_column w r);
        reflexivity.
  - intros r. unfold Later.retire_column.
    destruct (DuckLakeColumn.end_snapshot r) eqn:Hend;
      destruct (Later.ended_column w r) eqn:Hw; retire_visible He Hend.
  - eapply Forall_impl; [| exact Hn]. intros r Hr. cbn beta.
    rewrite visible_not_yet by exact Hr. apply andb_false_r.
Qed.

Lemma left_join_map (fd : DuckLakeDataFile.row -> DuckLakeDataFile.row)
    (fx : DuckLakeDeleteFile.row -> DuckLakeDeleteFile.row) data del :
  (forall d, DuckLakeDataFile.data_file_id (fd d) = DuckLakeDataFile.data_file_id d) ->
  (forall x, DuckLakeDeleteFile.data_file_id (fx x) =
             DuckLakeDeleteFile.data_file_id x) ->
  Query.left_join (map fd data) (map fx del) =
  map (fun j => (fd (fst j), option_map fx (snd j))) (Query.left_join data del).
Proof.
  intros Hd Hx. unfold Query.left_join.
  induction data as [| d data IH]; [reflexivity |].
  change (map fd (d :: data)) with (fd d :: map fd data).
  cbn [flat_map]. rewrite map_app, IH. f_equal.
  rewrite filter_map_comm.
  rewrite (filter_ext _ (fun x => DuckLakeDataFile.data_file_id d =?
                                  DuckLakeDeleteFile.data_file_id x))
    by (intros x; now rewrite Hd, Hx).
  destruct (filter _ del) as [| m ms]; [reflexivity |].
  cbn [map fst snd option_map]. f_equal. rewrite !map_map. reflexivity.
Qed.

Lemma data_files_later tid :
  map to_DataFile (Query.data_files (Later.apply w c) tid S) =
  map to_DataFile (Query.data_files c tid S).
Proof.
  destruct Hafter as [_ [_ [_ [Hed [Hex [_ [_ [_ [Hnd Hnx]]]]]]]]].
  rewrite !data_files_filter_first. unfold Query.del.
  cbn [Later.apply ducklake_data_file ducklake_delete_file].
  rewrite !filter_later.
  - rewrite (left_join_map
               (fun r => Later.retire_data_file (Later.ended_data_file w r) r)
               (fun r => Later.retire_delete_file (Later.ended_delete_file w r) r)).
    + rewrite (order_by_map
                 (fun j => DuckLakeDataFile.file_order (fst j))
                 (fun j => DuckLakeDataFile.file_order (fst j))
                 (fun j => (Later.retire_data_file
                              (Later.ended_data_file w (fst j)) (fst j),
                            option_map
                              (fun r => Later.retire_delete_file
                                          (Later.ended_delete_file w r) r)
                              (snd j)))).
      * rewrite map_map. apply map_ext. intros [d [x |]];
          unfold to_DataFile, Later.retire_data_file, Later.retire_delete_file;
          cbn [fst snd option_map].
        -- destruct (DuckLakeDataFile.end_snapshot d),
             (Later.ended_data_file w d),
             (DuckLakeDeleteFile.end_snapshot x),
             (Later.ended_delete_file w x); reflexivity.
        -- destruct (DuckLakeDataFile.end_snapshot d),
             (Later.ended_data_file w d); reflexivity.
      * intros [d ox]. cbn [fst]. unfold Later.retire_data_file.
        destruct (DuckLakeDataFile.end_snapshot d),
          (Later.ended_data_file w d); reflexivity.
    + intros d. unfold Later.retire_data_file.
      destruct (DuckLakeDataFile.end_snapshot d),
        (Later.ended_data_file w d); reflexivity.
    + intros x. unfold Later.retire_delete_file.
      destruct (DuckLakeDeleteFile.end_snapshot x),
        (Later.ended_delete_file w x); reflexivity.
  - intros r. unfold Later.retire_delete_file.
    destruct (DuckLakeDeleteFile.end_snapshot r) eqn:Hend;
      destruct (Later.ended_delete_file w r) eqn:Hw; retire_visible Hex Hend.
  - eapply Forall_impl; [| exact Hnx]. intros r Hr. now apply visible_not_yet.
  - intros r. unfold Later.retire_data_file.
    destruct (DuckLakeDataFile.end_snapshot r) eqn:Hend;
      destruct (Later.ended_data_file w r) eqn:Hw; retire_visible Hed Hend.
  - eapply Forall_impl; [| exact Hnd]. intros r Hr. cbn beta.
    rewrite visible_not_yet by exact Hr. apply andb_false_r.
Qed.

End LaterWrites.

Lemma list_schemas_later S w self :
  Later.after S w ->
  list_schemas (Later.client w self) (Some S) = list_schemas self (Some S).
Proof.
  intros Hafter. unfold list_schemas. rewrite !bind_ret_l.
  apply bind_ext. intros _. cbn [Later.client engine]. unfold ret.
  now rewrite (schemas_later S w Hafter).
Qed.

Lemma list_tables_later S w self sid :
  Later.after S w ->
  list_tables (Later.client w self) sid (Some S) = list_tables self sid (Some S).
Proof.
  intros Hafter. unfold list_tables. rewrite !bind_ret_l.
  apply bind_ext. intros _. cbn [Later.client engine]. unfold ret.
  now rewrite (tables_later S w Hafter).
Qed.

Lemma get_table_columns_later S w self tid :
  Later.after S w ->
  get_table_columns (Later.client w self) tid (Some S) =
  get_table_columns self tid (Some S).
Proof.
  intros Hafter. unfold get_table_columns. rewrite !bind_ret_l.
  apply bind_ext. intros _. cbn [Later.client engine]. unfold ret.
  now rewrite (columns_later S w Hafter).
Qed.

Lemma get_data_files_later S w self tid :
  Later.after S w ->
  get_data_files (Later.client w self) tid (Some S) =
  get_data_files self tid (Some S).
Proof.
  intros Hafter. unfold get_data_files. rewrite !bind_ret_l.
  apply bind_ext. intros _. cbn [Later.client engine]. unfold ret.
  now rewrite (data_files_later S w Hafter).
Qed.

Lemma read_data_files_later w env self tn sn cols dfs :
  read_data_files env (Later.client w self) tn sn cols dfs =
  read_data_files env self tn sn cols dfs.
Proof.
  induction dfs as [| df dfs IH]; [reflexivity |].
  cbn [read_data_files]. rewrite IH. reflexivity.
Qed.

Lemma _read_table_later S w env self tid tn sn cols :
  Later.after S w ->
  _read_table env (Later.client w self) tid tn sn (Some S) cols =
  _read_table env self tid tn sn (Some S) cols.
Proof.
  intros Hafter. unfold _read_table. rewrite !bind_ret_l.
  rewrite (get_data_files_later S w self tid Hafter).
  apply bind_ext. intros dfs. destruct dfs as [| df dfs].
  - now rewrite (get_table_columns_later S w self tid Hafter).
  - now rewrite read_data_files_later.
Qed.

Lemma read_table_later S w env self sn tn cols :
  Later.after S w ->
  read_table env (Later.client w self) sn tn (Some S) cols =
  read_table env self sn tn (Some S) cols.
Proof.
  intros Hafter. unfold read_table. rewrite !bind_ret_l.
  rewrite (list_schemas_later S w self Hafter).
  apply bind_ext. intros schemas.
  destruct (find_id sn schemas) as [sid |]; [| reflexivity].
  rewrite (list_tables_later S w self sid Hafter).
  apply bind_ext. intros tables.
  destruct (find_id tn tables) as [tid |]; [| reflexivity].
  now apply _read_table_later.
Qed.


Lemma later_cases_after : Later.after 3 LaterCases.writes.
Proof.
  unfold Later.after, LaterCases.writes.
  cbn [Later.ended_schema Later.ended_table Later.ended_column
         Later.ended_data_file Later.ended_delete_file Later.new_schemas
         Later.new_tables Later.new_columns Later.new_data_files
         Later.new_delete_files].
  repeat split; try discriminate; try (repeat constructor; cbn; lia).
  - intros r e. destruct (DuckLakeTable.table_id r =? 3); intros [= <-]; lia.
  - intros r e [= <-]. lia.
  - intros r e [= <-]. lia.
Qed.


(** X19: snapshot isolation.  After any writes made at snapshots past [S],
    [read_table] at [S] does what it did before them: the same queries,
    the same file reads, the same table or the same exception. *)
Theorem read_table_unchanged_by_later_writes S w env self sn tn cols :
  Later.after S w ->
  read_table env (Later.client w self) sn tn (Some S) cols =
  read_table env self sn tn (Some S) cols.
Proof. apply read_table_later. Qed.

Lemma read_table_unchanged_by_later_writes_witness :
  Later.after 3 LaterCases.writes /\
  outcome (read_table Lake.env (Later.client LaterCases.writes Lake.client)
                      "test_schema" "deletes_table" (Some 3) None) =
    Ok {| schema := Lake.fields;
          rows := [ [VInt 1; VStr "Alice"]; [VInt 3; VStr "Charlie"];
                    [VInt 4; VStr "Dave"] ] |} /\
  outcome (read_table Lake.env (Later.client LaterCases.writes Lake.client)
                      "test_schema" "empty_table" None None) =
    Raise (ValueError "Table 'empty_table' not found in schema 'test_schema'").
Proof.
  split; [exact later_cases_after |]. split; [| reflexivity].
  rewrite (read_table_unchanged_by_later_writes 3 LaterCases.writes Lake.env
             Lake.client "test_schema" "deletes_table" None later_cases_after).
  reflexivity.
Defined.

(** X20: a snapshot id given by the caller is not checked against the
    snapshots of the catalog: whatever the snapshot relation holds, even
    nothing, [read_table] at a given snapshot does the same. *)
Theorem given_snapshot_is_not_validated l env self sn tn S cols :
  read_table env {| engine := with_snapshots l (engine self);
                    data_path := data_path self |} sn tn (Some S) cols =
  read_table env self sn tn (Some S) cols.
Proof.
  unfold read_table. rewrite !bind_ret_l.
  apply bind_ext. intros schemas.
  destruct (find_id sn schemas) as [sid |]; [| reflexivity].
  apply bind_ext. intros tables.
  destruct (find_id tn tables) as [tid |]; [| reflexivity].
  unfold _read_table. rewrite !bind_ret_l.
  apply bind_ext. intros dfs. destruct dfs as [| df dfs]; [reflexivity |].
  assert (Hloop : forall ds,
            read_data_files env {| engine := with_snapshots l (engine self);
                                   data_path := data_path self |} tn sn cols ds =
            read_data_files env self tn sn cols ds).
  { induction ds as [| d ds IH]; [reflexivity |].
    cbn [read_data_files]. rewrite IH. reflexivity. }
  now rewrite Hloop.
Qed.

(** ** Closing *)

(** X21: [close] can be called again.  After a call the client is closed,
    also when [engine.dispose()] raised; the engine is disposed of by the
    first call on an open client and by no other; a call on a closed client
    changes nothing and raises nothing. *)
Theorem close_twice dispose dispose' s :
  Lifecycle._closed (fst (Lifecycle.close dispose s)) = true /\
  Lifecycle.close dispose' (fst (Lifecycle.close dispose s)) =
    (fst (Lifecycle.close dispose s), None) /\
  (Lifecycle._closed s = false ->
     Lifecycle.disposals (fst (Lifecycle.close dispose s)) =
       Datatypes.S (Lifecycle.disposals s) /\
     snd (Lifecycle.close dispose s) = dispose) /\
  (Lifecycle._closed s = true -> Lifecycle.close dispose s = (s, None)).
Proof.
  unfold Lifecycle.close. destruct (Lifecycle._closed s) eqn:Hc; cbn [fst snd].
  - rewrite Hc. repeat split; try reflexivity; discriminate.
  - cbn [Lifecycle._closed Lifecycle.disposals].
    repeat split; try reflexivity; discriminate.
Qed.

(** X22: the [with] statement.  On a closed client it raises the
    [RuntimeError] of [__enter__] and the block is not run.  On an open
    client the block is run and the client is closed when the statement is
    left, whatever the block did; if the block left the client open the
    engine is disposed of once, and the statement gives the value of the
    block unless the block or [engine.dispose()] raised. *)
Theorem with_statement_closes {A} dispose (body : Lifecycle.State ->
                                                   Lifecycle.State * result A) s :
  (Lifecycle._closed s = true ->
     Lifecycle.with_client dispose body s =
       (s, inl (Lifecycle.RuntimeError "DucklakeClient is closed"))) /\
  (Lifecycle._closed s = false ->
     Lifecycle._closed (fst (Lifecycle.with_client dispose body s)) = true /\
     (Lifecycle._closed (fst (body s)) = false ->
        Lifecycle.disposals (fst (Lifecycle.with_client dispose body s)) =
          Datatypes.S (Lifecycle.disposals (fst (body s))) /\
        snd (Lifecycle.with_client dispose body s) =
          match dispose, snd (body s) with
          | Some e, _ => inl (Lifecycle.Propagated e)
          | None, Raise e => inl (Lifecycle.Propagated e)
          | None, Ok a => inr a
          end) /\
     (Lifecycle._closed (fst (body s)) = true ->
        fst (Lifecycle.with_client dispose body s) = fst (body s) /\
        snd (Lifecycle.with_client dispose body s) =
          match snd (body s) with
          | Raise e => inl (Lifecycle.Propagated e)
          | Ok a => inr a
          end)).
Proof.
  unfold Lifecycle.with_client, Lifecycle.__enter__, Lifecycle.__exit__,
    Lifecycle.close.
  split; intros Hc; rewrite Hc; [reflexivity |].
  destruct (body s) as [s1 r]. cbn [fst snd].
  destruct (Lifecycle._closed s1) eqn:H1; cbn [fst snd].
  - split; [exact H1 |]. split; [discriminate |]. intros _. split; reflexivity.
  - split; [reflexivity |]. split; [| discriminate]. intros _.
    split; reflexivity.
Qed.
